(** * Product allocation engine: a shallow embedding of
      [src/ProductAllocationApp.tsx] and the properties of its operations.

    The component keeps three pieces of React state: the allocation state
    ([state]), the list of diagnostic messages ([errors]) and a version
    counter ([versionKey]).  Every handler of the component
    ([runAutoAssignment], [updateAllocation], [resetAllocations],
    [saveAllocations], [addNewOrder]) is embedded as a function on that
    triple; a handler runs against the state of the render it was created
    in, so [state] and the [prev] argument of its updaters coincide.

    Numbers.  The quantities, prices and credits of the source are
    JavaScript numbers.  They are modelled by [num]: exact rationals
    extended with [+Infinity], [-Infinity] and [NaN], with the IEEE-754
    rules for the special values (division by zero, [Infinity - Infinity],
    [0 * Infinity], comparisons with [NaN], the two zeros, ...) written
    out.  One aspect of binary floating point is idealised away: finite
    results are not rounded.  The statements that need sums and differences
    to be exact are therefore made for counts, integers up to
    [Number.MAX_SAFE_INTEGER], on which the arithmetic of the source is
    exact.  Products and quotients are taken as the code computes them: the
    credit ceiling is stated on the quotient [creditRemaining /
    pricePerUnit] itself, and as a product only for prices and credits that
    are counts, where the floor of the quotient is the exact integer
    quotient and the product is exact. *)

From Stdlib Require Import List String Ascii Bool ZArith QArith Qround.
From Stdlib Require Import Lia Lqa Permutation Sorted Decimal DecimalString.
From Stdlib Require Import DecimalNat.
Import ListNotations.

Local Open Scope string_scope.
Local Open Scope list_scope.

(* ================================================================== *)
(** ** JavaScript numbers *)

Module Js.

Local Open Scope Q_scope.

(** [Fin q] is the finite number of value [q], the zero among them being
    [+0]; [NZero] is [-0]. *)
Inductive num : Type :=
| Fin (q : Q)
| NZero
| PInf
| NInf
| NaN.

Definition zero : num := Fin 0.

Definition isNaN (x : num) : bool :=
  match x with NaN => true | _ => false end.

Definition isFinite (x : num) : bool :=
  match x with Fin _ | NZero => true | _ => false end.

Definition isNZero (x : num) : bool :=
  match x with NZero => true | _ => false end.

(** [+0] *)
Definition isPZero (x : num) : bool :=
  match x with Fin q => Qeq_bool q 0 | _ => false end.

(** The sign bit of a number that is not [NaN]. *)
Definition negative (x : num) : bool :=
  match x with
  | Fin q => match q ?= 0 with Lt => true | _ => false end
  | NZero | NInf => true
  | PInf | NaN => false
  end.

Definition signed_zero (minus : bool) : num := if minus then NZero else Fin 0.

Definition signed_inf (minus : bool) : num := if minus then NInf else PInf.

(** Unary minus. *)
Definition neg (x : num) : num :=
  match x with
  | Fin q => if Qeq_bool q 0 then NZero else Fin (- q)
  | NZero => Fin 0
  | PInf => NInf
  | NInf => PInf
  | NaN => NaN
  end.

(** [a + b]; a zero sum is [+0], but for [-0 + -0]. *)
Definition add (a b : num) : num :=
  match a, b with
  | NaN, _ | _, NaN => NaN
  | Fin p, Fin q => Fin (p + q)
  | NZero, x | x, NZero => x
  | PInf, NInf | NInf, PInf => NaN
  | PInf, _ | _, PInf => PInf
  | NInf, _ | _, NInf => NInf
  end.

(** [a - b], which is [a + (-b)]. *)
Definition sub (a b : num) : num :=
  match a, b with
  | Fin p, Fin q => Fin (p - q)
  | _, _ => add a (neg b)
  end.

(** [a * b]; zero times an infinity is [NaN], and the sign of a zero
    product is the product of the signs. *)
Definition mul (a b : num) : num :=
  match a, b with
  | NaN, _ | _, NaN => NaN
  | Fin p, Fin q =>
      if Qeq_bool (p * q) 0 && xorb (negative a) (negative b)
      then NZero else Fin (p * q)
  | (PInf | NInf), Fin q | Fin q, (PInf | NInf) =>
      if Qeq_bool q 0 then NaN
      else signed_inf (xorb (negative a) (negative b))
  | (PInf | NInf), NZero | NZero, (PInf | NInf) => NaN
  | (PInf | NInf), (PInf | NInf) =>
      signed_inf (xorb (negative a) (negative b))
  | NZero, _ | _, NZero => signed_zero (xorb (negative a) (negative b))
  end.

(** [a / b]; a zero divisor gives an infinity, a zero dividend a zero,
    each of the sign of the quotient, and [0 / 0] is [NaN]. *)
Definition div (a b : num) : num :=
  match a, b with
  | NaN, _ | _, NaN => NaN
  | Fin p, Fin q =>
      match q ?= 0 with
      | Eq => match p ?= 0 with
              | Eq => NaN
              | Gt => PInf
              | Lt => NInf
              end
      | Gt => Fin (p / q)
      | Lt => match p ?= 0 with
              | Eq => NZero
              | _ => Fin (p / q)
              end
      end
  | Fin p, NZero =>
      match p ?= 0 with
      | Eq => NaN
      | Gt => NInf
      | Lt => PInf
      end
  | NZero, Fin q =>
      match q ?= 0 with
      | Eq => NaN
      | Gt => NZero
      | Lt => Fin 0
      end
  | NZero, NZero => NaN
  | (Fin _ | NZero), (PInf | NInf) =>
      signed_zero (xorb (negative a) (negative b))
  | (PInf | NInf), (Fin _ | NZero) =>
      signed_inf (xorb (negative a) (negative b))
  | (PInf | NInf), (PInf | NInf) => NaN
  end.

(** [Math.floor] *)
Definition floor (x : num) : num :=
  match x with
  | Fin q => Fin (inject_Z (Qfloor q))
  | _ => x
  end.

(** [a < b]; every comparison with [NaN] is false, and the zeros are
    equal. *)
Definition ltb (a b : num) : bool :=
  match a, b with
  | NaN, _ | _, NaN => false
  | Fin p, Fin q => match p ?= q with Lt => true | _ => false end
  | Fin p, NZero => match p ?= 0 with Lt => true | _ => false end
  | NZero, Fin q => match 0 ?= q with Lt => true | _ => false end
  | NZero, NZero => false
  | _, NInf => false
  | NInf, _ => true
  | PInf, _ => false
  | _, PInf => true
  end.

(** [a > b] *)
Definition gtb (a b : num) : bool := ltb b a.

(** [a === b] on numbers: numeric equality, false on [NaN]. *)
Definition eqb (a b : num) : bool :=
  match a, b with
  | Fin p, Fin q => Qeq_bool p q
  | Fin p, NZero => Qeq_bool p 0
  | NZero, Fin q => Qeq_bool 0 q
  | NZero, NZero | PInf, PInf | NInf, NInf => true
  | _, _ => false
  end.

(** [a <= b] *)
Definition leb (a b : num) : bool := ltb a b || eqb a b.

(** A number is falsy when it is zero or [NaN]. *)
Definition truthy (x : num) : bool :=
  match x with
  | Fin q => negb (Qeq_bool q 0)
  | NZero | NaN => false
  | _ => true
  end.

(** [x || d], where [x] may also be [undefined] (the result of an optional
    chain on a missing object). *)
Definition or_else (x : option num) (d : num) : num :=
  match x with
  | Some v => if truthy v then v else d
  | None => d
  end.

(** One step of the loop of [Math.min]: keep [lowest] unless [x] is
    strictly below it, [-0] counting as below [+0]. *)
Definition lower (lowest x : num) : num :=
  if ltb x lowest || (isNZero x && isPZero lowest) then x else lowest.

(** One step of the loop of [Math.max], [+0] counting as above [-0]. *)
Definition higher (highest x : num) : num :=
  if gtb x highest || (isPZero x && isNZero highest) then x else highest.

(** [Math.min(...)]: [NaN] if any argument is, else the least argument,
    starting from [+Infinity]. *)
Definition Math_min (xs : list num) : num :=
  if existsb isNaN xs then NaN else fold_left lower xs PInf.

(** [Math.max(...)]: [NaN] if any argument is, else the greatest argument,
    starting from [-Infinity]. *)
Definition Math_max (xs : list num) : num :=
  if existsb isNaN xs then NaN else fold_left higher xs NInf.

Definition no_NaN (xs : list num) : Prop := existsb isNaN xs = false.

End Js.

Import Js.

(* ================================================================== *)
(** ** Strings *)

(** [String(n)] for a non-negative integer. *)
Definition String_of_nat (n : nat) : string :=
  NilEmpty.string_of_uint (Nat.to_uint n).

Fixpoint repeat_char (c : ascii) (n : nat) : string :=
  match n with
  | O => EmptyString
  | S k => String c (repeat_char c k)
  end.

(** [s.padStart(n, c)] for a one-character filler. *)
Definition padStart (n : nat) (c : ascii) (s : string) : string :=
  (repeat_char c (n - String.length s) ++ s)%string.

(* ================================================================== *)
(** ** Data model *)

Module Customer.
Record t : Type := mk {
  id : string;
  name : string;
  creditRemaining : num;
  closingBalance : num
}.
End Customer.

Module Product.
Record t : Type := mk {
  id : string;
  name : string;
  pricePerUnit : num
}.
End Product.

Module Order.
Record t : Type := mk {
  id : string;
  customerId : string;
  productId : string;
  requestedQty : num;
  allocatedQty : num;
  suggestion : num;
  pricePerUnit : num;
  total : num
}.

(** [{...order, allocatedQty: q, total: t}] *)
Definition with_allocation (o : t) (q tot : num) : t :=
  {| id := id o;
     customerId := customerId o;
     productId := productId o;
     requestedQty := requestedQty o;
     allocatedQty := q;
     suggestion := suggestion o;
     pricePerUnit := pricePerUnit o;
     total := tot |}.
End Order.

Record AllocationState : Type := mkState {
  totalStock : num;
  remainingStock : num;
  orders : list Order.t;
  customers : list Customer.t;
  products : list Product.t
}.

(** The React state of the component. *)
Record App : Type := mkApp {
  state : AllocationState;
  errors : list string;
  versionKey : Z
}.

Definition price_515_75 : num := Fin (2063 # 4).

Definition initialOrder : Order.t :=
  {| Order.id := "ORDER-001";
     Order.customerId := "company1";
     Order.productId := "product";
     Order.requestedQty := Fin 10;
     Order.allocatedQty := Fin 0;
     Order.suggestion := Fin 10;
     Order.pricePerUnit := price_515_75;
     Order.total := Fin 0 |}.

Definition initialCustomer : Customer.t :=
  {| Customer.id := "company1";
     Customer.name := "Company 1";
     Customer.creditRemaining := Fin 3000;
     Customer.closingBalance := Fin 3000 |}.

Definition initialProduct : Product.t :=
  {| Product.id := "product";
     Product.name := "1 day delivery Product";
     Product.pricePerUnit := price_515_75 |}.

(** The state the component is created with. *)
Definition initialState : AllocationState :=
  {| totalStock := Fin 10;
     remainingStock := Fin 10;
     orders := [initialOrder];
     customers := [initialCustomer];
     products := [initialProduct] |}.

Definition initialApp : App :=
  {| state := initialState; errors := []; versionKey := 1 |}.

(** A second state, with three orders of two customers: the first order
    belongs to the customer with the smaller credit. *)
Definition exampleOrder (oid cid : string) : Order.t :=
  {| Order.id := oid;
     Order.customerId := cid;
     Order.productId := "product";
     Order.requestedQty := Fin 5;
     Order.allocatedQty := Fin 0;
     Order.suggestion := Fin 5;
     Order.pricePerUnit := Fin 10;
     Order.total := Fin 0 |}.

Definition smallCustomer : Customer.t :=
  {| Customer.id := "small";
     Customer.name := "Small";
     Customer.creditRemaining := Fin 100;
     Customer.closingBalance := Fin 100 |}.

Definition largeCustomer : Customer.t :=
  {| Customer.id := "large";
     Customer.name := "Large";
     Customer.creditRemaining := Fin 200;
     Customer.closingBalance := Fin 200 |}.

Definition exampleState : AllocationState :=
  {| totalStock := Fin 8;
     remainingStock := Fin 8;
     orders := [ exampleOrder "ORDER-001" "small";
                 exampleOrder "ORDER-002" "large";
                 exampleOrder "ORDER-003" "large" ];
     customers := [smallCustomer; largeCustomer];
     products := [initialProduct] |}.

Definition exampleApp : App :=
  {| state := exampleState; errors := []; versionKey := 1 |}.

(* ================================================================== *)
(** ** Array helpers *)

(** [state.customers.find(c => c.id === cid)] *)
Definition find_customer (cs : list Customer.t) (cid : string)
  : option Customer.t :=
  find (fun c => String.eqb (Customer.id c) cid) cs.

(** [arr.findIndex(p)], with [None] for [-1]. *)
Fixpoint findIndex {A : Type} (p : A -> bool) (l : list A) : option nat :=
  match l with
  | [] => None
  | x :: xs =>
      if p x then Some O
      else match findIndex p xs with
           | Some i => Some (S i)
           | None => None
           end
  end.

(** [arr[i] = v] for an index inside the array. *)
Fixpoint set_at {A : Type} (i : nat) (v : A) (l : list A) : list A :=
  match l, i with
  | [], _ => []
  | _ :: xs, O => v :: xs
  | x :: xs, S k => x :: set_at k v xs
  end.

(** [arr.sort(cmp)].  The comparator's result is a number: a positive
    result puts the second argument first, a negative, zero or [NaN] result
    leaves the pair as it is met.  The sort of ECMAScript is stable, and this
    is the stable insertion sort; [sort_unique] below shows that for the
    comparator of the engine no other stable sort can answer differently. *)
Fixpoint insert {A : Type} (cmp : A -> A -> num) (x : A) (l : list A)
  : list A :=
  match l with
  | [] => [x]
  | y :: ys =>
      if gtb (cmp x y) zero then y :: insert cmp x ys else x :: y :: ys
  end.

Definition sort {A : Type} (cmp : A -> A -> num) (l : list A) : list A :=
  fold_right (insert cmp) [] l.

(* ================================================================== *)
(** ** Auto-assignment *)

(** [customer?.creditRemaining || 0] for the customer of an order. *)
Definition priority (cs : list Customer.t) (o : Order.t) : num :=
  or_else (option_map Customer.creditRemaining
             (find_customer cs (Order.customerId o))) zero.

(** The comparator passed to [newOrders.sort]. *)
Definition compareOrders (cs : list Customer.t) (a b : Order.t) : num :=
  sub (priority cs b) (priority cs a).

Definition credit_message (oid : string) : string :=
  ("Order " ++ oid ++ ": Exceeds customer credit limit")%string.

Definition requested_message (oid : string) : string :=
  ("Order " ++ oid ++ ": Allocation exceeds requested quantity")%string.

(** The body of [newOrders.forEach(order => ...)]: the order as the body
    leaves it, the running [remainingStock] and the messages pushed. *)
Definition allocateOrder (cs : list Customer.t) (order : Order.t)
    (remainingStock : num) : Order.t * num * list string :=
  match find_customer cs (Order.customerId order) with
  | None => (order, remainingStock, [])
  | Some customer =>
      let maxAffordableQty :=
        floor (div (Customer.creditRemaining customer)
                   (Order.pricePerUnit order)) in
      let maxAllowableQty :=
        Math_min [Order.requestedQty order; remainingStock; maxAffordableQty] in
      let allocatedQty := Math_max [zero; maxAllowableQty] in
      let order' :=
        Order.with_allocation order allocatedQty
          (mul allocatedQty (Order.pricePerUnit order)) in
      let remainingStock' := sub remainingStock allocatedQty in
      let e1 :=
        if gtb allocatedQty
              (div (Customer.creditRemaining customer)
                   (Order.pricePerUnit order))
        then [credit_message (Order.id order)] else [] in
      let e2 :=
        if gtb allocatedQty (Order.requestedQty order)
        then [requested_message (Order.id order)] else [] in
      (order', remainingStock', e1 ++ e2)
  end.

(** The whole [forEach] loop, threading [remainingStock] and [newErrors].
    The body assigns to the order objects held by [newOrders], so the array
    the loop leaves is the sorted one with each order as the body left
    it. *)
Fixpoint allocate (cs : list Customer.t) (os : list Order.t)
    (remainingStock : num) : list Order.t * num * list string :=
  match os with
  | [] => ([], remainingStock, [])
  | o :: rest =>
      let '(o', remaining', e) := allocateOrder cs o remainingStock in
      let '(rest', remaining'', es) := allocate cs rest remaining' in
      (o' :: rest', remaining'', e ++ es)
  end.

(** [newOrders] is a copy of [state.orders], sorted in place; the new state
    takes the sorted, allocated array and the final [remainingStock], the
    messages replace the former ones and the version counter goes up. *)
Definition runAutoAssignment (app : App) : App :=
  let s := state app in
  let newOrders := sort (compareOrders (customers s)) (orders s) in
  let '(newOrders', remainingStock', newErrors) :=
    allocate (customers s) newOrders (totalStock s) in
  {| state :=
       {| totalStock := totalStock s;
          remainingStock := remainingStock';
          orders := newOrders';
          customers := customers s;
          products := products s |};
     errors := newErrors;
     versionKey := versionKey app + 1 |}.

(* ================================================================== *)
(** ** Manual update *)

Definition limited_by_credit (oid : string) : string :=
  ("Order " ++ oid ++ ": Limited by customer credit")%string.

Definition limited_by_stock (oid : string) : string :=
  ("Order " ++ oid ++ ": Limited by available stock")%string.

(** [newOrders.reduce((sum, o) => o.id !== orderId ? sum + o.allocatedQty : sum, 0)] *)
Definition currentAllocatedTotal (os : list Order.t) (orderId : string) : num :=
  fold_left
    (fun sum o =>
       if negb (String.eqb (Order.id o) orderId)
       then add sum (Order.allocatedQty o) else sum)
    os zero.

(** [newOrders.reduce((sum, o) => sum + o.allocatedQty, 0)] *)
Definition allocatedTotal (os : list Order.t) : num :=
  fold_left (fun sum o => add sum (Order.allocatedQty o)) os zero.

Definition maxAffordableQty (customer : Customer.t) (order : Order.t) : num :=
  floor (div (Customer.creditRemaining customer) (Order.pricePerUnit order)).

Definition maxAvailableQty (s : AllocationState) (orderId : string) : num :=
  sub (totalStock s) (currentAllocatedTotal (orders s) orderId).

Definition constrainedQty (s : AllocationState) (customer : Customer.t)
    (order : Order.t) (orderId : string) (newQty : num) : num :=
  Math_min [ Math_max [zero; newQty];
             Order.requestedQty order;
             maxAffordableQty customer order;
             maxAvailableQty s orderId ].

(** The messages of the validation step at the end of [updateAllocation]. *)
Definition updateErrors (orderId : string)
    (constrained newQty maxAffordable maxAvailable : num) : list string :=
  if ltb constrained newQty then
    if eqb constrained maxAffordable then [limited_by_credit orderId]
    else if eqb constrained maxAvailable then [limited_by_stock orderId]
    else []
  else [].

(** Both [return]s of the source leave the component as it is.  The index
    [findIndex] answers is inside the array, so [newOrders[orderIndex]] is
    an order ([findIndex_Some] below); the branch for an index outside is
    never taken. *)
Definition updateAllocation (app : App) (orderId : string) (newQty : num)
  : App :=
  let s := state app in
  let newOrders := orders s in
  match findIndex (fun o => String.eqb (Order.id o) orderId) newOrders with
  | None => app
  | Some orderIndex =>
      match nth_error newOrders orderIndex with
      | None => app
      | Some order =>
          match find_customer (customers s) (Order.customerId order) with
          | None => app
          | Some customer =>
              let constrained := constrainedQty s customer order orderId newQty in
              let newOrders' :=
                set_at orderIndex
                  (Order.with_allocation order constrained
                     (mul constrained (Order.pricePerUnit order)))
                  newOrders in
              let newRemainingStock :=
                sub (totalStock s) (allocatedTotal newOrders') in
              {| state :=
                   {| totalStock := totalStock s;
                      remainingStock := newRemainingStock;
                      orders := newOrders';
                      customers := customers s;
                      products := products s |};
                 errors :=
                   updateErrors orderId constrained newQty
                     (maxAffordableQty customer order)
                     (maxAvailableQty s orderId);
                 versionKey := versionKey app + 1 |}
          end
      end
  end.

(* ================================================================== *)
(** ** Reset, save, order creation *)

Definition resetAllocations (app : App) : App :=
  let s := state app in
  let resetOrders :=
    map (fun order => Order.with_allocation order zero zero) (orders s) in
  {| state :=
       {| totalStock := totalStock s;
          remainingStock := totalStock s;
          orders := resetOrders;
          customers := customers s;
          products := products s |};
     errors := [];
     versionKey := versionKey app + 1 |}.

(** [saveAllocations] only raises an alert: the component state it leaves
    and the text it shows. *)
Definition saveAllocations (app : App) : App * string :=
  (app,
   ("Allocations saved successfully! Version: "
      ++ NilZero.string_of_int (Z.to_int (versionKey app)))%string).

Definition newOrderId (n : nat) : string :=
  ("ORDER-" ++ padStart 3 "0"%char (String_of_nat (n + 1)))%string.

Definition addNewOrder (app : App) : App :=
  let s := state app in
  let newOrder :=
    {| Order.id := newOrderId (List.length (orders s));
       Order.customerId := "company1";
       Order.productId := "product";
       Order.requestedQty := Fin 1;
       Order.allocatedQty := Fin 0;
       Order.suggestion := Fin 1;
       Order.pricePerUnit := price_515_75;
       Order.total := Fin 0 |} in
  {| state :=
       {| totalStock := totalStock s;
          remainingStock := remainingStock s;
          orders := orders s ++ [newOrder];
          customers := customers s;
          products := products s |};
     errors := errors app;
     versionKey := versionKey app |}.

(* ================================================================== *)
(** ** Vocabulary of the specification *)

(** [clamp(x, lower, upper)]: [x] raised to [lower], then cut at [upper]. *)
Definition clamp (x lower upper : num) : num :=
  Math_min [Math_max [lower; x]; upper].

(** The order a manual update is aimed at: the first one with that id. *)
Definition find_order (s : AllocationState) (orderId : string)
  : option Order.t :=
  find (fun o => String.eqb (Order.id o) orderId) (orders s).

(** The target of a manual update and its customer, when both exist. *)
Definition update_target (s : AllocationState) (orderId : string)
  : option (Order.t * Customer.t) :=
  match find_order s orderId with
  | Some order =>
      match find_customer (customers s) (Order.customerId order) with
      | Some customer => Some (order, customer)
      | None => None
      end
  | None => None
  end.

(** The orders other than the target of a manual update. *)
Definition otherOrders (os : list Order.t) (orderId : string) : list Order.t :=
  filter (fun o => negb (String.eqb (Order.id o) orderId)) os.

(** The list without its element at position [i]. *)
Fixpoint remove_at {A : Type} (i : nat) (l : list A) : list A :=
  match l, i with
  | [], _ => []
  | _ :: xs, O => xs
  | x :: xs, S k => x :: remove_at k xs
  end.

Definition ids (s : AllocationState) : list string :=
  map Order.id (orders s).

Definition unique_ids (s : AllocationState) : Prop := NoDup (ids s).

(** Two orders that differ at most in [allocatedQty] and [total]. *)
Definition same_request (a b : Order.t) : Prop :=
  Order.id a = Order.id b /\
  Order.customerId a = Order.customerId b /\
  Order.productId a = Order.productId b /\
  Order.requestedQty a = Order.requestedQty b /\
  Order.suggestion a = Order.suggestion b /\
  Order.pricePerUnit a = Order.pricePerUnit b.

(** [a] is served no later than [b]: its customer's credit is not smaller. *)
Definition served_before (cs : list Customer.t) (a b : Order.t) : Prop :=
  leb (priority cs b) (priority cs a) = true.

(** The orders whose priority is numerically [k], in the order of the list. *)
Definition with_priority (cs : list Customer.t) (k : num) (os : list Order.t)
  : list Order.t :=
  filter (fun o => eqb (priority cs o) k) os.

(** The preconditions of the data model: credits, prices and requested
    quantities are not negative. *)
Definition preconditions (s : AllocationState) : bool :=
  forallb (fun c => leb zero (Customer.creditRemaining c)) (customers s)
  && forallb (fun o => leb zero (Order.pricePerUnit o)
                       && leb zero (Order.requestedQty o)) (orders s).

(** No price is the negative zero. *)
Definition positive_zero_prices (s : AllocationState) : bool :=
  forallb (fun o => negb (isNZero (Order.pricePerUnit o))) (orders s).

(** [Number.MAX_SAFE_INTEGER], 2^53 - 1.  Up to it every whole number is a
    double, and sums and differences of whole numbers that stay within it
    are computed without rounding. *)
Definition MAX_SAFE_INTEGER : Q := 9007199254740991.

(** [Math.floor(x) === x]: a whole number of any size, or an infinity. *)
Definition whole (x : num) : bool := eqb (floor x) x.

(** A quantity of the data model: a whole number from 0 to
    [MAX_SAFE_INTEGER] (and not the negative zero). *)
Definition count (x : num) : bool :=
  match x with
  | Fin q => Qle_bool 0 q && Qle_bool q MAX_SAFE_INTEGER && whole x
  | _ => false
  end.

(** An amount of the data model: finite and not negative (the negative
    zero is not one). *)
Definition finite_nonneg (x : num) : bool :=
  match x with
  | Fin q => Qle_bool 0 q
  | _ => false
  end.

(** The invariants of one order (1, 2 and 4 of the data model).  The
    quantity is a count; the credit ceiling is read on the quotient the
    code computes: a quantity other than zero is at most
    [creditRemaining / pricePerUnit]. *)
Definition order_invariant (cs : list Customer.t) (o : Order.t) : bool :=
  count (Order.allocatedQty o)
  && leb (Order.allocatedQty o) (Order.requestedQty o)
  && eqb (Order.total o) (mul (Order.allocatedQty o) (Order.pricePerUnit o))
  && match find_customer cs (Order.customerId o) with
     | Some c =>
         eqb (Order.allocatedQty o) zero
         || leb (Order.allocatedQty o)
                (div (Customer.creditRemaining c) (Order.pricePerUnit o))
     | None => true
     end.

(** The invariants of a state: those of its orders, and the stock
    balance (3). *)
Definition invariants (s : AllocationState) : bool :=
  forallb (order_invariant (customers s)) (orders s)
  && leb (allocatedTotal (orders s)) (totalStock s)
  && eqb (remainingStock s) (sub (totalStock s) (allocatedTotal (orders s))).

(** The preconditions, with the stock: the stock and the requested
    quantities are counts, the credits and the prices are amounts. *)
Definition finite_preconditions (s : AllocationState) : bool :=
  count (totalStock s)
  && forallb (fun c => finite_nonneg (Customer.creditRemaining c)) (customers s)
  && forallb (fun o => finite_nonneg (Order.pricePerUnit o)
                       && count (Order.requestedQty o)) (orders s).

(** The customer of the order exists, and the quotient credit / price is
    defined: it is not 0 / 0. *)
Definition quotient_defined (cs : list Customer.t) (o : Order.t) : bool :=
  match find_customer cs (Order.customerId o) with
  | Some c =>
      truthy (Order.pricePerUnit o) || truthy (Customer.creditRemaining c)
  | None => false
  end.

(** What the automatic pass needs of an order. *)
Definition auto_ready (cs : list Customer.t) (o : Order.t) : Prop :=
  finite_nonneg (Order.pricePerUnit o) = true
  /\ count (Order.requestedQty o) = true
  /\ quotient_defined cs o = true.

Definition well_formed (s : AllocationState) : bool :=
  finite_preconditions s
  && forallb (quotient_defined (customers s)) (orders s).

(** The automatic pass in the words of the specification, with the amendment
    of C2: an order without customer is passed over; every other order gets
    [max(0, min(requestedQty, remainingStock, maxAffordableQty))], where
    affordability is unbounded at a zero price and
    [floor(creditRemaining / pricePerUnit)] otherwise, its [total] is that
    quantity times [pricePerUnit], and the running stock goes down by the
    quantity. *)
Fixpoint priority_walk (cs : list Customer.t) (os : list Order.t)
    (remaining : num) : list Order.t * num :=
  match os with
  | [] => ([], remaining)
  | o :: rest =>
      match find_customer cs (Order.customerId o) with
      | None =>
          let '(rest', r) := priority_walk cs rest remaining in
          (o :: rest', r)
      | Some c =>
          let affordable :=
            if eqb (Order.pricePerUnit o) zero then PInf
            else floor (div (Customer.creditRemaining c)
                            (Order.pricePerUnit o)) in
          let qty :=
            Math_max [zero;
                      Math_min [Order.requestedQty o; remaining; affordable]] in
          let '(rest', r) := priority_walk cs rest (sub remaining qty) in
          (Order.with_allocation o qty (mul qty (Order.pricePerUnit o))
             :: rest', r)
      end
  end.

(** Zero-priced orders have the positive zero for price and belong to
    customers with a positive credit. *)
Definition free_items_covered (cs : list Customer.t) (o : Order.t) : Prop :=
  forall c,
    find_customer cs (Order.customerId o) = Some c ->
    eqb (Order.pricePerUnit o) zero = true ->
    isNZero (Order.pricePerUnit o) = false
    /\ gtb (Customer.creditRemaining c) zero = true.

(** The calls of the engine that change the allocation state. *)
Inductive operation : Type :=
| Auto
| Update (orderId : string) (newQty : num)
| Reset
| Add.

Definition apply_operation (app : App) (op : operation) : App :=
  match op with
  | Auto => runAutoAssignment app
  | Update orderId newQty => updateAllocation app orderId newQty
  | Reset => resetAllocations app
  | Add => addNewOrder app
  end.

(** A call the invariants are kept by: a manual update asks for a whole
    quantity; an order is created only if its default customer exists and
    its id is new. *)
Definition admissible (app : App) (op : operation) : Prop :=
  match op with
  | Update _ newQty => whole newQty = true
  | Add =>
      find_customer (customers (state app)) "company1" <> None
      /\ ~ In (newOrderId (List.length (orders (state app))))
             (ids (state app))
  | Auto | Reset => True
  end.

(** A sequence of calls, each admissible when it is made. *)
Fixpoint admissible_run (app : App) (ops : list operation) : Prop :=
  match ops with
  | [] => True
  | op :: rest =>
      admissible app op /\ admissible_run (apply_operation app op) rest
  end.

Definition run (app : App) (ops : list operation) : App :=
  fold_left apply_operation ops app.

(** The rational value of a finite number. *)
Definition toQ (x : num) : Q :=
  match x with Fin q => q | _ => 0%Q end.

(** The allocated quantities of finitely allocated orders, added up. *)
Definition allocatedQ (os : list Order.t) : Q :=
  fold_right (fun o acc => (toQ (Order.allocatedQty o) + acc)%Q) 0%Q os.

Definition finitely_allocated (o : Order.t) : Prop :=
  isFinite (Order.allocatedQty o) = true.

(** Two orders sharing a stock of ten, the first served with eight. *)
Definition sharedStockState : AllocationState :=
  {| totalStock := Fin 10;
     remainingStock := Fin 2;
     orders :=
       [ {| Order.id := "ORDER-A";
            Order.customerId := "large";
            Order.productId := "product";
            Order.requestedQty := Fin 8;
            Order.allocatedQty := Fin 8;
            Order.suggestion := Fin 8;
            Order.pricePerUnit := Fin 10;
            Order.total := Fin 80 |};
         exampleOrder "ORDER-B" "large" ];
     customers := [largeCustomer];
     products := [initialProduct] |}.

Definition sharedStockApp : App :=
  {| state := sharedStockState; errors := []; versionKey := 1 |}.

(** A customer without credit ordering a free item and a paid one. *)
Definition brokeCustomer : Customer.t :=
  {| Customer.id := "broke";
     Customer.name := "Broke";
     Customer.creditRemaining := Fin 0;
     Customer.closingBalance := Fin 0 |}.

Definition freeOrder : Order.t :=
  {| Order.id := "ORDER-001";
     Order.customerId := "broke";
     Order.productId := "product";
     Order.requestedQty := Fin 4;
     Order.allocatedQty := Fin 0;
     Order.suggestion := Fin 4;
     Order.pricePerUnit := Fin 0;
     Order.total := Fin 0 |}.

Definition paidOrder : Order.t :=
  {| Order.id := "ORDER-002";
     Order.customerId := "broke";
     Order.productId := "product";
     Order.requestedQty := Fin 2;
     Order.allocatedQty := Fin 0;
     Order.suggestion := Fin 2;
     Order.pricePerUnit := Fin 10;
     Order.total := Fin 0 |}.

Definition zeroPriceState : AllocationState :=
  {| totalStock := Fin 10;
     remainingStock := Fin 10;
     orders := [freeOrder; paidOrder];
     customers := [brokeCustomer];
     products := [initialProduct] |}.

Definition zeroPriceApp : App :=
  {| state := zeroPriceState; errors := []; versionKey := 1 |}.

(** A state in which the first order, fully served, refers to a customer
    that is not (or no longer) in the customer list. *)
Definition orphanOrder : Order.t :=
  {| Order.id := "ORDER-001";
     Order.customerId := "ghost";
     Order.productId := "product";
     Order.requestedQty := Fin 5;
     Order.allocatedQty := Fin 5;
     Order.suggestion := Fin 5;
     Order.pricePerUnit := Fin 1;
     Order.total := Fin 5 |}.

Definition orphanState : AllocationState :=
  {| totalStock := Fin 5;
     remainingStock := Fin 0;
     orders := [orphanOrder; exampleOrder "ORDER-002" "small"];
     customers := [smallCustomer];
     products := [initialProduct] |}.

Definition orphanApp : App :=
  {| state := orphanState; errors := []; versionKey := 1 |}.

(** A free item for the customer of larger credit, before the orders of
    [exampleState]. *)
Definition giftOrder : Order.t :=
  {| Order.id := "ORDER-000";
     Order.customerId := "large";
     Order.productId := "product";
     Order.requestedQty := Fin 4;
     Order.allocatedQty := Fin 0;
     Order.suggestion := Fin 4;
     Order.pricePerUnit := Fin 0;
     Order.total := Fin 0 |}.

Definition giftState : AllocationState :=
  {| totalStock := Fin 8;
     remainingStock := Fin 8;
     orders := giftOrder :: orders exampleState;
     customers := customers exampleState;
     products := products exampleState |}.

Definition giftApp : App :=
  {| state := giftState; errors := []; versionKey := 1 |}.

(** An order whose price is the negative zero, for a customer with a credit
    of 50. *)
Definition fiftyCustomer : Customer.t :=
  {| Customer.id := "fifty";
     Customer.name := "Fifty";
     Customer.creditRemaining := Fin 50;
     Customer.closingBalance := Fin 0 |}.

Definition negativeZeroOrder : Order.t :=
  {| Order.id := "ORDER-001";
     Order.customerId := "fifty";
     Order.productId := "product";
     Order.requestedQty := Fin 3;
     Order.allocatedQty := Fin 0;
     Order.suggestion := Fin 3;
     Order.pricePerUnit := NZero;
     Order.total := Fin 0 |}.

Definition negativeZeroState : AllocationState :=
  {| totalStock := Fin 10;
     remainingStock := Fin 10;
     orders := [negativeZeroOrder];
     customers := [fiftyCustomer];
     products := [initialProduct] |}.

Definition negativeZeroApp : App :=
  {| state := negativeZeroState; errors := []; versionKey := 1 |}.

(* ================================================================== *)
(** ** The handlers of the rendered table *)

(** [parseInt(e.target.value) || 0], for the result of [parseInt]: the
    integer read, or [NaN] when the text starts with none. *)
Definition inputQuantity (parsed : num) : num := or_else (Some parsed) zero.

(** [disabled={order.allocatedQty <= 0}] of the minus button. *)
Definition minusDisabled (order : Order.t) : bool :=
  leb (Order.allocatedQty order) zero.

(** [onClick={() => updateAllocation(order.id, order.allocatedQty - 1)}] *)
Definition onMinus (app : App) (order : Order.t) : App :=
  updateAllocation app (Order.id order) (sub (Order.allocatedQty order) (Fin 1)).

(** [onClick={() => updateAllocation(order.id, order.allocatedQty + 1)}] *)
Definition onPlus (app : App) (order : Order.t) : App :=
  updateAllocation app (Order.id order) (add (Order.allocatedQty order) (Fin 1)).

(** [onChange={(e) => updateAllocation(order.id, parseInt(e.target.value) || 0)}] *)
Definition onInputChange (app : App) (order : Order.t) (parsed : num) : App :=
  updateAllocation app (Order.id order) (inputQuantity parsed).

(** [onClick={() => updateAllocation(order.id, order.suggestion)}] *)
Definition onUseSuggestion (app : App) (order : Order.t) : App :=
  updateAllocation app (Order.id order) (Order.suggestion order).

(** What the operator can do to the rendered component.  A row is named by
    its position in [state.orders.map]; the quantity typed comes as the result
    of [parseInt]. *)
Inductive event : Type :=
| ClickAuto
| ClickReset
| ClickSave
| ClickAdd
| ClickMinus (row : nat)
| ClickPlus (row : nat)
| ChangeInput (row : nat) (parsed : num)
| ClickSuggestion (row : nat).

(** The component after an event.  The handlers of a row close over the
    order rendered in it; a row that is not rendered, and a disabled button,
    raise no event. *)
Definition handle (app : App) (e : event) : App :=
  match e with
  | ClickAuto => runAutoAssignment app
  | ClickReset => resetAllocations app
  | ClickSave => fst (saveAllocations app)
  | ClickAdd => addNewOrder app
  | ClickMinus row =>
      match nth_error (orders (state app)) row with
      | Some order => if minusDisabled order then app else onMinus app order
      | None => app
      end
  | ClickPlus row =>
      match nth_error (orders (state app)) row with
      | Some order => onPlus app order
      | None => app
      end
  | ChangeInput row parsed =>
      match nth_error (orders (state app)) row with
      | Some order => onInputChange app order parsed
      | None => app
      end
  | ClickSuggestion row =>
      match nth_error (orders (state app)) row with
      | Some order => onUseSuggestion app order
      | None => app
      end
  end.

Definition session (app : App) (events : list event) : App :=
  fold_left handle events app.

(** The figure of the "Allocated" card:
    [state.totalStock - state.remainingStock]. *)
Definition allocatedDisplay (s : AllocationState) : num :=
  sub (totalStock s) (remainingStock s).

(** ** Further vocabulary *)

(** The number written in decimal digits, leading zeros allowed. *)
Definition decodeDigits (s : string) : option nat :=
  option_map Nat.of_uint (NilEmpty.uint_of_string s).

(** The ids are those [addNewOrder] gives to the first orders of a session,
    in some order. *)
Definition sequential_ids (s : AllocationState) : Prop :=
  Permutation (ids s) (map newOrderId (seq 0 (List.length (orders s)))).

(** [o'] is [o] but for the allocation of an order that has a customer. *)
Definition carried_over (cs : list Customer.t) (o o' : Order.t) : Prop :=
  same_request o o'
  /\ (find_customer cs (Order.customerId o) = None -> o' = o).

(** A state in which the operator can work: well formed, with the ids of a
    session, the customer of new orders, and whole suggestions. *)
Definition session_ready (s : AllocationState) : Prop :=
  well_formed s = true
  /\ invariants s = true
  /\ sequential_ids s
  /\ find_customer (customers s) "company1" <> None
  /\ Forall (fun o => whole (Order.suggestion o) = true) (orders s).

(** The quantity an input event carries is what [parseInt] answers: a whole
    number, an infinity, or [NaN]. *)
Definition parsed_by_parseInt (e : event) : bool :=
  match e with
  | ChangeInput _ parsed => whole parsed || isNaN parsed
  | _ => true
  end.

(** The requested quantities of orders with finite requests, added up. *)
Definition requestedQ (os : list Order.t) : Q :=
  fold_right (fun o acc => (toQ (Order.requestedQty o) + acc)%Q) 0%Q os.

(** The customer of the order can pay for all it requests. *)
Definition request_affordable (cs : list Customer.t) (o : Order.t) : Prop :=
  forall c,
    find_customer cs (Order.customerId o) = Some c ->
    leb (Order.requestedQty o)
        (floor (div (Customer.creditRemaining c) (Order.pricePerUnit o)))
    = true.

(** The orders of [exampleState] as the automatic pass takes them. *)
Definition exampleProcessing : list Order.t :=
  [ exampleOrder "ORDER-002" "large";
    exampleOrder "ORDER-003" "large";
    exampleOrder "ORDER-001" "small" ].

(** [exampleState] with stock for every request. *)
Definition ampleState : AllocationState :=
  {| totalStock := Fin 20;
     remainingStock := Fin 20;
     orders := orders exampleState;
     customers := customers exampleState;
     products := products exampleState |}.

Definition ampleApp : App :=
  {| state := ampleState; errors := []; versionKey := 1 |}.

(* ================================================================== *)
(** ** Facts about JavaScript numbers *)

Module JsFacts.

Local Open Scope Q_scope.

(** Case analysis on every rational comparison in sight. *)
Ltac qcases :=
  repeat match goal with
    | H : context [Qeq_bool ?a ?b] |- _ =>
        let E := fresh "E" in
        destruct (Qeq_bool a b) eqn:E;
        [apply Qeq_bool_iff in E | apply Qeq_bool_neq in E]
    | |- context [Qeq_bool ?a ?b] =>
        let E := fresh "E" in
        destruct (Qeq_bool a b) eqn:E;
        [apply Qeq_bool_iff in E | apply Qeq_bool_neq in E]
    | H : context [?a ?= ?b] |- _ => destruct (Qcompare_spec a b)
    | |- context [?a ?= ?b] => destruct (Qcompare_spec a b)
    end.

Ltac num_crush :=
  unfold leb, gtb, ltb, eqb, truthy, zero in *; simpl in *;
  qcases; simpl in *;
  try discriminate; try reflexivity; try tauto; try lra;
  try (exfalso; lra).

(** The same, through the steps of [Math.min] and [Math.max]. *)
Ltac num_cases :=
  unfold lower, higher, isNZero, isPZero, leb, gtb, ltb, eqb, truthy,
    zero in *;
  repeat (progress (simpl in *; qcases));
  try discriminate; try reflexivity; try tauto; try lra;
  try (exfalso; lra).

Lemma ltb_Fin (p q : Q) : ltb (Fin p) (Fin q) = true <-> p < q.
Proof. split; intro H; num_crush. Qed.

Lemma eqb_Fin (p q : Q) : eqb (Fin p) (Fin q) = true <-> p == q.
Proof. split; intro H; num_crush. Qed.

Lemma leb_Fin (p q : Q) : leb (Fin p) (Fin q) = true <-> p <= q.
Proof. split; intro H; num_crush. Qed.

Lemma leb_not_NaN_l (a b : num) : leb a b = true -> isNaN a = false.
Proof. destruct a, b; intro; num_crush. Qed.

Lemma leb_not_NaN_r (a b : num) : leb a b = true -> isNaN b = false.
Proof. destruct a, b; intro; num_crush. Qed.

Lemma leb_refl (a : num) : isNaN a = false -> leb a a = true.
Proof. destruct a; intro; num_crush. Qed.

Lemma leb_trans (a b c : num) :
  leb a b = true -> leb b c = true -> leb a c = true.
Proof. destruct a, b, c; intros; num_crush. Qed.

Lemma leb_total (a b : num) :
  isNaN a = false -> isNaN b = false -> leb a b = true \/ leb b a = true.
Proof. destruct a, b; intros; num_crush. Qed.

Lemma leb_gtb (a b : num) : leb a b = true -> gtb a b = false.
Proof. destruct a, b; intros; num_crush. Qed.

Lemma ltb_leb (a b : num) : ltb a b = true -> leb a b = true.
Proof. destruct a, b; intros; num_crush. Qed.

Lemma not_ltb_leb (a b : num) :
  isNaN a = false -> isNaN b = false -> ltb a b = false -> leb b a = true.
Proof. destruct a, b; intros; num_crush. Qed.

Lemma eqb_leb (a b : num) : eqb a b = true -> leb a b = true.
Proof. destruct a, b; intros; num_crush. Qed.

Lemma eqb_sym (a b : num) : eqb a b = eqb b a.
Proof. destruct a, b; num_crush. Qed.

Lemma eqb_trans (a b c : num) :
  eqb a b = true -> eqb b c = true -> eqb a c = true.
Proof. destruct a, b, c; intros; num_crush. Qed.

Lemma leb_antisym (a b : num) :
  leb a b = true -> leb b a = true -> eqb a b = true.
Proof. destruct a, b; intros; num_crush. Qed.

Lemma floor_leb (x : num) : isNaN x = false -> leb (floor x) x = true.
Proof.
  destruct x as [q| | | |]; intro; try reflexivity; try discriminate.
  apply leb_Fin, Qfloor_le.
Qed.

Lemma floor_isNaN (x : num) : isNaN (floor x) = isNaN x.
Proof. destruct x; reflexivity. Qed.

(** The quotient of two non-negative numbers is never negative, unless the
    divisor is [-0]. *)
Lemma div_nonneg (a b : num) :
  leb zero a = true -> leb zero b = true -> isNZero b = false ->
  ltb (div a b) zero = false.
Proof.
  destruct a as [p| | | |], b as [q| | | |]; intros Ha Hb Hz;
    try discriminate; try reflexivity.
  - apply leb_Fin in Ha, Hb. simpl.
    destruct (Qcompare_spec q 0) as [E|E|E].
    + destruct (Qcompare_spec p 0); try reflexivity; lra.
    + lra.
    + assert (0 <= p / q) by (apply Qle_shift_div_l; lra).
      unfold ltb, zero.
      destruct (Qcompare_spec (p / q) 0); try reflexivity; lra.
  - apply leb_Fin in Ha. simpl.
    destruct (Qcompare_spec p 0); try reflexivity; lra.
  - apply leb_Fin in Hb. simpl.
    destruct (Qcompare_spec q 0); try reflexivity; lra.
  - apply leb_Fin in Hb. simpl.
    destruct (Qcompare_spec q 0); try reflexivity; lra.
Qed.

(** *** [Math.min] and [Math.max] *)

Lemma no_NaN_cons (x : num) (xs : list num) :
  no_NaN (x :: xs) <-> isNaN x = false /\ no_NaN xs.
Proof. unfold no_NaN. simpl. rewrite orb_false_iff. tauto. Qed.

Lemma Math_min_no_NaN (xs : list num) :
  no_NaN xs -> Math_min xs = fold_left lower xs PInf.
Proof. unfold Math_min, no_NaN. intros ->. reflexivity. Qed.

Lemma Math_min_has_NaN (xs : list num) :
  existsb isNaN xs = true -> Math_min xs = NaN.
Proof. unfold Math_min. intros ->. reflexivity. Qed.

Lemma lower_isNaN (a b : num) :
  isNaN a = false -> isNaN b = false -> isNaN (lower a b) = false.
Proof. unfold lower. intros. destruct (_ || _); assumption. Qed.

Lemma lower_PInf (a : num) : isNaN a = false -> lower PInf a = a.
Proof. destruct a; intro; try discriminate; reflexivity. Qed.

Lemma lower_assoc (a b c : num) :
  isNaN a = false -> isNaN b = false -> isNaN c = false ->
  lower (lower a b) c = lower a (lower b c).
Proof.
  unfold lower. destruct a, b, c; intros; try discriminate;
    unfold ltb, isNZero, isPZero; simpl; qcases; simpl; qcases;
    simpl; qcases; try reflexivity; try (exfalso; lra).
Qed.

Lemma fold_lower_isNaN (xs : list num) (acc : num) :
  no_NaN xs -> isNaN acc = false -> isNaN (fold_left lower xs acc) = false.
Proof.
  revert acc. induction xs as [|x xs IH]; intros acc Hxs Hacc; simpl.
  - exact Hacc.
  - apply no_NaN_cons in Hxs as [Hx Hxs].
    apply IH; [exact Hxs | apply lower_isNaN; assumption].
Qed.

Lemma fold_lower_acc (xs : list num) (acc : num) :
  no_NaN xs -> isNaN acc = false ->
  fold_left lower xs acc = lower acc (fold_left lower xs PInf).
Proof.
  revert acc. induction xs as [|x xs IH]; intros acc Hxs Hacc; simpl.
  - destruct acc; try discriminate; reflexivity.
  - apply no_NaN_cons in Hxs as [Hx Hxs].
    rewrite (IH (lower acc x)) by (auto using lower_isNaN).
    rewrite (IH (lower PInf x)) by (auto using lower_isNaN).
    rewrite lower_PInf by exact Hx.
    apply lower_assoc; auto using fold_lower_isNaN.
Qed.

Lemma Math_min_isNaN (xs : list num) :
  isNaN (Math_min xs) = existsb isNaN xs.
Proof.
  unfold Math_min. destruct (existsb isNaN xs) eqn:E.
  - reflexivity.
  - apply fold_lower_isNaN; [exact E | reflexivity].
Qed.

(** [Math.min] of several arguments nests: the least of [a] and the least of
    the others. *)
Lemma Math_min_cons (a : num) (xs : list num) :
  Math_min (a :: xs) = Math_min [a; Math_min xs].
Proof.
  destruct (existsb isNaN (a :: xs)) eqn:E.
  - rewrite (Math_min_has_NaN _ E).
    symmetry. apply Math_min_has_NaN.
    simpl in *. rewrite Math_min_isNaN.
    destruct (isNaN a), (existsb isNaN xs); try discriminate; reflexivity.
  - pose proof E as E'. apply no_NaN_cons in E' as [Ha Hxs].
    rewrite (Math_min_no_NaN _ E), (Math_min_no_NaN _ Hxs).
    rewrite Math_min_no_NaN.
    + simpl. rewrite lower_PInf by exact Ha.
      apply fold_lower_acc; assumption.
    + apply no_NaN_cons. split; [exact Ha|].
      apply no_NaN_cons. split; [|reflexivity].
      apply fold_lower_isNaN; [exact Hxs | reflexivity].
Qed.

Lemma lower_leb_l (acc x : num) :
  isNaN acc = false -> isNaN x = false -> leb (lower acc x) acc = true.
Proof.
  destruct acc, x; intros; try discriminate; num_cases.
Qed.

Lemma lower_leb_r (acc x : num) :
  isNaN acc = false -> isNaN x = false -> leb (lower acc x) x = true.
Proof.
  destruct acc, x; intros; try discriminate; num_cases.
Qed.

(** [Math.min] is below each of its arguments. *)
Lemma fold_lower_leb_acc (xs : list num) (acc : num) :
  no_NaN xs -> isNaN acc = false ->
  leb (fold_left lower xs acc) acc = true.
Proof.
  revert acc. induction xs as [|x xs IH]; intros acc Hxs Hacc; simpl.
  - apply leb_refl, Hacc.
  - apply no_NaN_cons in Hxs as [Hx Hxs].
    apply leb_trans with (lower acc x).
    + apply IH; auto using lower_isNaN.
    + apply lower_leb_l; assumption.
Qed.

Lemma fold_lower_leb_In (xs : list num) (acc x : num) :
  no_NaN xs -> isNaN acc = false -> In x xs ->
  leb (fold_left lower xs acc) x = true.
Proof.
  revert acc. induction xs as [|y xs IH]; intros acc Hxs Hacc Hin; simpl.
  - destruct Hin.
  - apply no_NaN_cons in Hxs as [Hy Hxs].
    destruct Hin as [->|Hin].
    + apply leb_trans with (lower acc x).
      * apply fold_lower_leb_acc; auto using lower_isNaN.
      * apply lower_leb_r; assumption.
    + apply IH; auto using lower_isNaN.
Qed.

Lemma Math_min_leb (xs : list num) (x : num) :
  no_NaN xs -> In x xs -> leb (Math_min xs) x = true.
Proof.
  intros Hxs Hin. rewrite Math_min_no_NaN by exact Hxs.
  apply fold_lower_leb_In; auto.
Qed.

(** [Math.min] answers one of its arguments, or [+Infinity]. *)
Lemma fold_lower_In (xs : list num) (acc : num) :
  fold_left lower xs acc = acc \/ In (fold_left lower xs acc) xs.
Proof.
  revert acc. induction xs as [|y xs IH]; intros acc; simpl.
  - left. reflexivity.
  - destruct (IH (lower acc y)) as [E|Hin].
    + rewrite E. unfold lower. destruct (_ || _); auto.
    + auto.
Qed.

Lemma Math_max_zero (m : num) :
  Math_max [zero; m]
  = if isNaN m then NaN else if gtb m zero then m else zero.
Proof.
  destruct m as [q| | | |]; try reflexivity.
  unfold Math_max, higher. simpl.
  rewrite andb_false_r, orb_false_r. reflexivity.
Qed.

End JsFacts.

(* ================================================================== *)
(** ** Arrays *)

Section Arrays.
Context {A : Type}.
Variable p : A -> bool.

Lemma findIndex_None (l : list A) :
  findIndex p l = None <-> find p l = None.
Proof.
  induction l as [|x xs IH]; simpl.
  - tauto.
  - destruct (p x).
    + split; discriminate.
    + destruct (findIndex p xs).
      * split; intro H; [discriminate|]. apply IH in H. discriminate.
      * split; intro H; [apply IH|]; reflexivity.
Qed.

Lemma findIndex_Some (l : list A) (i : nat) :
  findIndex p l = Some i ->
  exists x, nth_error l i = Some x /\ find p l = Some x /\ p x = true.
Proof.
  revert i. induction l as [|x xs IH]; simpl; intros i H.
  - discriminate.
  - destruct (p x) eqn:E.
    + injection H as <-. exists x. auto.
    + destruct (findIndex p xs) as [j|]; [|discriminate].
      injection H as <-. apply (IH j eq_refl).
Qed.

Lemma find_findIndex (l : list A) (x : A) :
  find p l = Some x ->
  exists i, findIndex p l = Some i /\ nth_error l i = Some x.
Proof.
  intro H. destruct (findIndex p l) as [i|] eqn:E.
  - destruct (findIndex_Some l i E) as (y & Hn & Hf & _).
    exists i. split; [reflexivity|]. congruence.
  - apply findIndex_None in E. congruence.
Qed.

(** Overwriting the first match with another match. *)
Lemma find_set_at (l : list A) (i : nat) (y : A) :
  findIndex p l = Some i -> p y = true -> find p (set_at i y l) = Some y.
Proof.
  revert i. induction l as [|x xs IH]; simpl; intros i H Hy.
  - discriminate.
  - destruct (p x) eqn:E.
    + injection H as <-. simpl. rewrite Hy. reflexivity.
    + destruct (findIndex p xs) as [j|]; [|discriminate].
      injection H as <-. simpl. rewrite E. apply IH; auto.
Qed.

Lemma filter_set_at (l : list A) (i : nat) (y : A) :
  findIndex p l = Some i -> p y = true ->
  filter (fun x => negb (p x)) (set_at i y l)
  = filter (fun x => negb (p x)) l.
Proof.
  revert i. induction l as [|x xs IH]; simpl; intros i H Hy.
  - discriminate.
  - destruct (p x) eqn:E.
    + injection H as <-. simpl. rewrite Hy. reflexivity.
    + destruct (findIndex p xs) as [j|]; [|discriminate].
      injection H as <-. simpl. rewrite E. simpl. f_equal. apply IH; auto.
Qed.

Lemma map_set_at {B : Type} (f : A -> B) (l : list A) (i : nat) (x y : A) :
  nth_error l i = Some x -> f y = f x -> map f (set_at i y l) = map f l.
Proof.
  revert i. induction l as [|z zs IH]; intros [|i]; simpl; intros H Hf;
    try discriminate.
  - injection H as ->. rewrite Hf. reflexivity.
  - f_equal. apply IH; assumption.
Qed.

(** With a single match, the non-matching elements are all the others. *)
Lemma filter_remove_at (l : list A) (i : nat) :
  findIndex p l = Some i ->
  (forall j x, nth_error l j = Some x -> p x = true -> j = i) ->
  filter (fun x => negb (p x)) l = remove_at i l.
Proof.
  revert i. induction l as [|x xs IH]; simpl; intros i H Huniq.
  - discriminate.
  - destruct (p x) eqn:E.
    + injection H as <-. simpl.
      apply forallb_filter_id. apply forallb_forall. intros y Hy.
      apply In_nth_error in Hy as [j Hj].
      destruct (p y) eqn:Ey; [|reflexivity].
      specialize (Huniq (S j) y Hj Ey). discriminate.
    + destruct (findIndex p xs) as [j|]; [|discriminate].
      injection H as <-. simpl. f_equal. apply IH; [reflexivity|].
      intros k y Hk Hy. specialize (Huniq (S k) y Hk Hy). lia.
Qed.
End Arrays.

(* ================================================================== *)
(** ** Manual update: what it computes *)

Lemma update_target_None (s : AllocationState) (orderId : string) :
  update_target s orderId = None <->
  find_order s orderId = None \/
  exists order, find_order s orderId = Some order /\
                find_customer (customers s) (Order.customerId order) = None.
Proof.
  unfold update_target. destruct (find_order s orderId) as [o|].
  - destruct (find_customer (customers s) (Order.customerId o)) eqn:E.
    + split; [discriminate|]. intros [H|(o' & H & H')]; [discriminate|].
      injection H as <-. congruence.
    + split; [|reflexivity]. intros _. right. exists o. auto.
  - split; auto.
Qed.

Lemma updateAllocation_not_found (app : App) (orderId : string) (newQty : num) :
  update_target (state app) orderId = None ->
  updateAllocation app orderId newQty = app.
Proof.
  unfold update_target, find_order, updateAllocation. intro H.
  destruct (findIndex _ (orders (state app))) as [i|] eqn:Ei; [|reflexivity].
  destruct (findIndex_Some _ _ _ Ei) as (o & Hn & Hf & _).
  rewrite Hf in H. rewrite Hn.
  destruct (find_customer (customers (state app)) (Order.customerId o));
    [discriminate | reflexivity].
Qed.

Lemma updateAllocation_found (app : App) (orderId : string) (newQty : num)
    (order : Order.t) (customer : Customer.t) :
  update_target (state app) orderId = Some (order, customer) ->
  exists i,
    findIndex (fun o => String.eqb (Order.id o) orderId) (orders (state app))
      = Some i /\
    nth_error (orders (state app)) i = Some order /\
    String.eqb (Order.id order) orderId = true /\
    updateAllocation app orderId newQty =
      let s := state app in
      let constrained := constrainedQty s customer order orderId newQty in
      let newOrders :=
        set_at i (Order.with_allocation order constrained
                    (mul constrained (Order.pricePerUnit order)))
          (orders s) in
      {| state :=
           {| totalStock := totalStock s;
              remainingStock := sub (totalStock s) (allocatedTotal newOrders);
              orders := newOrders;
              customers := customers s;
              products := products s |};
         errors :=
           updateErrors orderId constrained newQty
             (maxAffordableQty customer order) (maxAvailableQty s orderId);
         versionKey := versionKey app + 1 |}.
Proof.
  unfold update_target, find_order, updateAllocation. intro H.
  destruct (find _ (orders (state app))) as [o|] eqn:Ef; [|discriminate].
  destruct (find_customer (customers (state app)) (Order.customerId o))
    as [c|] eqn:Ec; [|discriminate].
  injection H as -> ->.
  destruct (find_findIndex _ _ _ Ef) as (i & Ei & Hn).
  exists i. rewrite Ei, Hn, Ec.
  repeat split; auto.
  apply find_some in Ef. apply Ef.
Qed.

(** The conditional sum of the source adds up the other orders. *)
Lemma currentAllocatedTotal_others (os : list Order.t) (orderId : string) :
  currentAllocatedTotal os orderId = allocatedTotal (otherOrders os orderId).
Proof.
  unfold currentAllocatedTotal, allocatedTotal, otherOrders.
  generalize zero. induction os as [|o os IH]; intro acc; simpl.
  - reflexivity.
  - destruct (negb (String.eqb (Order.id o) orderId)); simpl; apply IH.
Qed.

(** With unique ids the other orders are all orders but the target. *)
Lemma otherOrders_unique (s : AllocationState) (orderId : string) (i : nat) :
  unique_ids s ->
  findIndex (fun o => String.eqb (Order.id o) orderId) (orders s) = Some i ->
  otherOrders (orders s) orderId = remove_at i (orders s).
Proof.
  unfold unique_ids, ids, otherOrders. intros Hu Hi.
  apply filter_remove_at; [exact Hi|].
  intros j x Hj Hx.
  destruct (findIndex_Some _ _ _ Hi) as (y & Hn & _ & Hy).
  apply String.eqb_eq in Hx, Hy.
  assert (Hlen : (i < List.length (map Order.id (orders s)))%nat).
  { rewrite length_map. apply nth_error_Some. congruence. }
  rewrite (NoDup_nth_error (map Order.id (orders s))) in Hu.
  symmetry. apply Hu; [exact Hlen|].
  rewrite !nth_error_map, Hn, Hj. simpl. congruence.
Qed.

Lemma constrainedQty_clamp (s : AllocationState) (customer : Customer.t)
    (order : Order.t) (orderId : string) (newQty : num) :
  constrainedQty s customer order orderId newQty
  = clamp newQty zero
      (Math_min [ Order.requestedQty order;
                  floor (div (Customer.creditRemaining customer)
                             (Order.pricePerUnit order));
                  sub (totalStock s)
                      (allocatedTotal (otherOrders (orders s) orderId)) ]).
Proof.
  unfold constrainedQty, clamp, maxAffordableQty, maxAvailableQty.
  rewrite currentAllocatedTotal_others.
  apply JsFacts.Math_min_cons.
Qed.

(** C1.  When the target order and its customer exist, the order
    [updateAllocation] leaves under the target id has [allocatedQty] equal to
    [clamp(desiredQty, 0, min(requestedQty, maxAffordableQty,
    maxAvailableQty))] and [total] equal to that quantity times
    [pricePerUnit], where [maxAffordableQty] is
    [floor(creditRemaining / pricePerUnit)] and [maxAvailableQty] is
    [totalStock] minus the sum of [allocatedQty] over the other orders; its
    other fields are those of the target, and the other orders are left as
    they were. *)
Theorem updateAllocation_clamps (app : App) (orderId : string)
    (desiredQty : num) (order : Order.t) (customer : Customer.t) :
  find_order (state app) orderId = Some order ->
  find_customer (customers (state app)) (Order.customerId order)
    = Some customer ->
  let s := state app in
  let s' := state (updateAllocation app orderId desiredQty) in
  let maxAffordable :=
    floor (div (Customer.creditRemaining customer) (Order.pricePerUnit order)) in
  let maxAvailable :=
    sub (totalStock s) (allocatedTotal (otherOrders (orders s) orderId)) in
  let qty :=
    clamp desiredQty zero
      (Math_min [Order.requestedQty order; maxAffordable; maxAvailable]) in
  (exists order',
     find_order s' orderId = Some order'
     /\ Order.allocatedQty order' = qty
     /\ Order.total order' = mul qty (Order.pricePerUnit order)
     /\ same_request order order')
  /\ otherOrders (orders s') orderId = otherOrders (orders s) orderId
  /\ ids s' = ids s.
Proof.
  intros Ho Hc s s' maxAffordable maxAvailable qty.
  assert (Ht : update_target s orderId = Some (order, customer)).
  { unfold update_target. fold s in Ho, Hc. rewrite Ho, Hc. reflexivity. }
  destruct (updateAllocation_found app orderId desiredQty order customer Ht)
    as (i & Hi & Hn & Hid & Hu).
  subst s'. rewrite Hu. cbv zeta. unfold find_order, ids. simpl.
  rewrite constrainedQty_clamp. fold s maxAffordable maxAvailable qty.
  split; [|split].
  - exists (Order.with_allocation order qty
              (mul qty (Order.pricePerUnit order))).
    split; [apply find_set_at; [exact Hi | exact Hid]|].
    split; [reflexivity|]. split; [reflexivity|].
    repeat split.
  - unfold otherOrders.
    apply (filter_set_at (fun o => String.eqb (Order.id o) orderId));
      [exact Hi | exact Hid].
  - apply map_set_at with (x := order); [exact Hn | reflexivity].
Qed.

Lemma updateAllocation_clamps_witness :
  find_order (state initialApp) "ORDER-001" = Some initialOrder
  /\ find_customer (customers (state initialApp))
       (Order.customerId initialOrder) = Some initialCustomer
  /\ exists order',
       find_order (state (updateAllocation initialApp "ORDER-001" (Fin 7)))
         "ORDER-001" = Some order'
       /\ Order.allocatedQty order' = Fin 5
       /\ Order.total order' = Fin (10315 # 4)
       /\ Order.requestedQty order' = Fin 10.
Proof.
  split; [reflexivity|]. split; [reflexivity|].
  destruct (updateAllocation_clamps initialApp "ORDER-001" (Fin 7)
              initialOrder initialCustomer eq_refl eq_refl)
    as [(order' & Hfind & Hqty & Htotal & Hsame) _].
  exists order'. split; [exact Hfind|]. split; [exact Hqty|].
  split; [exact Htotal|].
  destruct Hsame as (_ & _ & _ & Hreq & _). symmetry. exact Hreq.
Defined.

(* ================================================================== *)
(** ** Manual update: diagnostics and the not-found outcome *)

Lemma append_inj_l (s a b : string) :
  (s ++ a)%string = (s ++ b)%string -> a = b.
Proof.
  induction s as [|c s IH]; simpl; intro H.
  - exact H.
  - injection H as H. apply IH, H.
Qed.




(** A request cut by [requestedQty] alone leaves no message. *)
Example updateAllocation_silent_clip :
  let app' := updateAllocation exampleApp "ORDER-002" (Fin 7) in
  map Order.allocatedQty (orders (state app')) = [Fin 0; Fin 5; Fin 0]
  /\ errors app' = [].
Proof. split; reflexivity. Qed.

(** C7.  If no order has the target id, or the order found refers to no
    customer, [updateAllocation] changes nothing: the allocation state, the
    message list and the version counter are those it was given. *)
Theorem updateAllocation_silent_no_op (app : App) (orderId : string)
    (newQty : num) :
  find_order (state app) orderId = None
  \/ (exists order,
        find_order (state app) orderId = Some order
        /\ find_customer (customers (state app)) (Order.customerId order)
           = None) ->
  updateAllocation app orderId newQty = app.
Proof.
  intro H. apply updateAllocation_not_found, update_target_None, H.
Qed.

Lemma updateAllocation_silent_no_op_witness :
  find_order (state initialApp) "ORDER-404" = None
  /\ updateAllocation initialApp "ORDER-404" (Fin 3) = initialApp.
Proof.
  split; [reflexivity|].
  apply updateAllocation_silent_no_op. left. reflexivity.
Defined.

(* ================================================================== *)
(** ** Reset *)

(** C6.  [resetAllocations] leaves every order with [allocatedQty] and
    [total] zero and otherwise as it was, sets [remainingStock] to
    [totalStock], and empties the message list, whatever the state. *)
Theorem resetAllocations_zeroes (app : App) :
  let app' := resetAllocations app in
  Forall (fun o => Order.allocatedQty o = zero /\ Order.total o = zero)
    (orders (state app'))
  /\ Forall2 same_request (orders (state app)) (orders (state app'))
  /\ remainingStock (state app') = totalStock (state app)
  /\ totalStock (state app') = totalStock (state app)
  /\ errors app' = [].
Proof.
  cbv zeta. unfold resetAllocations. simpl. repeat split.
  - apply Forall_map, Forall_forall. intros o _. split; reflexivity.
  - induction (orders (state app)) as [|o os IH]; simpl; constructor.
    + repeat split.
    + exact IH.
Qed.

(* ================================================================== *)
(** ** The version counter *)

Lemma versionKey_runAutoAssignment (app : App) :
  versionKey (runAutoAssignment app) = (versionKey app + 1)%Z.
Proof.
  unfold runAutoAssignment.
  destruct (allocate _ _ _) as [[os r] es]. reflexivity.
Qed.

Lemma versionKey_updateAllocation (app : App) (orderId : string) (q : num) :
  versionKey (updateAllocation app orderId q)
  = match update_target (state app) orderId with
    | Some _ => (versionKey app + 1)%Z
    | None => versionKey app
    end.
Proof.
  destruct (update_target (state app) orderId) as [[o c]|] eqn:E.
  - destruct (updateAllocation_found app orderId q o c E)
      as (i & _ & _ & _ & ->). reflexivity.
  - rewrite updateAllocation_not_found by exact E. reflexivity.
Qed.

(** C8, as the claim states it, fails: neither [saveAllocations] nor
    [addNewOrder] moves the counter, although [addNewOrder] changes the
    state. *)
Lemma versionKey_not_incremented_by_save_or_add :
  versionKey (fst (saveAllocations initialApp)) <> (versionKey initialApp + 1)%Z
  /\ versionKey (addNewOrder initialApp) <> (versionKey initialApp + 1)%Z
  /\ state (addNewOrder initialApp) <> state initialApp.
Proof. repeat split; discriminate. Qed.

(** C8, amended.  [versionKey] grows by exactly one in
    [runAutoAssignment], in [resetAllocations] and in every
    [updateAllocation] that finds its order and customer, so that it differs
    from its previous value after each of them; an [updateAllocation] that
    finds none leaves it alone, and so does [saveAllocations], which changes no
    part of the component state. *)
Theorem versionKey_increments (app : App) :
  versionKey (runAutoAssignment app) = (versionKey app + 1)%Z
  /\ versionKey (resetAllocations app) = (versionKey app + 1)%Z
  /\ (forall orderId newQty,
        versionKey (updateAllocation app orderId newQty)
        = match update_target (state app) orderId with
          | Some _ => (versionKey app + 1)%Z
          | None => versionKey app
          end)
  /\ fst (saveAllocations app) = app
  /\ (versionKey app + 1 <> versionKey app)%Z.
Proof.
  repeat split.
  - apply versionKey_runAutoAssignment.
  - intros. apply versionKey_updateAllocation.
  - lia.
Qed.

(* ================================================================== *)
(** ** The priority sort *)

Section PrioritySort.
Variable cs : list Customer.t.

Lemma priority_not_NaN (o : Order.t) : isNaN (priority cs o) = false.
Proof.
  unfold priority, or_else.
  destruct (option_map _ _) as [v|]; [|reflexivity].
  destruct v; reflexivity || (simpl; destruct (negb _); reflexivity).
Qed.

(** The priority of an order is its customer's credit. *)
Lemma priority_credit (o : Order.t) (c : Customer.t) :
  find_customer cs (Order.customerId o) = Some c ->
  isNaN (Customer.creditRemaining c) = false ->
  eqb (priority cs o) (Customer.creditRemaining c) = true.
Proof.
  unfold priority. intros -> H. simpl.
  destruct (Customer.creditRemaining c) as [q| | | |];
    try discriminate; try reflexivity.
  unfold or_else, truthy.
  destruct (Qeq_bool q 0) eqn:E; simpl.
  - apply Qeq_bool_iff in E. apply Qeq_bool_iff, Qeq_sym, E.
  - apply Qeq_bool_iff, Qeq_refl.
Qed.

(** The comparator is positive exactly when its second argument has the
    larger priority. *)
Lemma sub_gtb_zero (a b : num) :
  isNaN a = false -> isNaN b = false ->
  gtb (sub b a) zero = ltb a b.
Proof.
  destruct a as [p| | | |], b as [q| | | |]; intros; try discriminate;
    try reflexivity; unfold sub, neg, add; JsFacts.num_cases.
Qed.

Lemma compareOrders_gtb (a b : Order.t) :
  gtb (compareOrders cs a b) zero = ltb (priority cs a) (priority cs b).
Proof. apply sub_gtb_zero; apply priority_not_NaN. Qed.

Lemma insert_priority (x : Order.t) (l : list Order.t) :
  insert (compareOrders cs) x l
  = match l with
    | [] => [x]
    | y :: ys =>
        if ltb (priority cs x) (priority cs y)
        then y :: insert (compareOrders cs) x ys
        else x :: y :: ys
    end.
Proof.
  destruct l as [|y ys]; [reflexivity|].
  change (insert (compareOrders cs) x (y :: ys))
    with (if gtb (compareOrders cs x y) zero
          then y :: insert (compareOrders cs) x ys else x :: y :: ys).
  rewrite compareOrders_gtb. reflexivity.
Qed.

Lemma insert_Permutation (x : Order.t) (l : list Order.t) :
  Permutation (x :: l) (insert (compareOrders cs) x l).
Proof.
  induction l as [|y ys IH].
  - apply Permutation_refl.
  - rewrite insert_priority.
    destruct (ltb (priority cs x) (priority cs y)).
    + apply perm_trans with (y :: x :: ys); [apply perm_swap|].
      apply perm_skip, IH.
    + apply Permutation_refl.
Qed.

Lemma sort_Permutation (l : list Order.t) :
  Permutation l (sort (compareOrders cs) l).
Proof.
  induction l as [|x xs IH]; simpl.
  - apply perm_nil.
  - apply perm_trans with (x :: sort (compareOrders cs) xs).
    + apply perm_skip, IH.
    + apply insert_Permutation.
Qed.

Lemma served_before_trans (a b c : Order.t) :
  served_before cs a b -> served_before cs b c -> served_before cs a c.
Proof. unfold served_before. intros H1 H2. eapply JsFacts.leb_trans; eauto. Qed.

Lemma insert_sorted (x : Order.t) (l : list Order.t) :
  StronglySorted (served_before cs) l ->
  StronglySorted (served_before cs) (insert (compareOrders cs) x l).
Proof.
  induction l as [|y ys IH]; intro Hs.
  - simpl. constructor; constructor.
  - rewrite insert_priority. inversion Hs as [|? ? Hys Hy]; subst.
    destruct (ltb (priority cs x) (priority cs y)) eqn:E.
    + constructor; [apply IH, Hys|].
      apply Forall_forall. intros z Hz.
      apply (Permutation_in _ (Permutation_sym (insert_Permutation x ys)))
        in Hz.
      destruct Hz as [<-|Hz].
      * apply JsFacts.ltb_leb, E.
      * rewrite Forall_forall in Hy. apply Hy, Hz.
    + assert (Hxy : served_before cs x y).
      { apply JsFacts.not_ltb_leb; auto using priority_not_NaN. }
      constructor; [exact Hs|].
      constructor; [exact Hxy|].
      eapply Forall_impl; [|exact Hy].
      intros z Hz. eapply served_before_trans; eauto.
Qed.

Lemma sort_sorted (l : list Order.t) :
  StronglySorted (served_before cs) (sort (compareOrders cs) l).
Proof.
  induction l as [|x xs IH]; simpl.
  - constructor.
  - apply insert_sorted, IH.
Qed.

Lemma insert_with_priority (k : num) (x : Order.t) (l : list Order.t) :
  with_priority cs k (insert (compareOrders cs) x l)
  = with_priority cs k (x :: l).
Proof.
  induction l as [|y ys IH].
  - reflexivity.
  - rewrite insert_priority.
    destruct (ltb (priority cs x) (priority cs y)) eqn:E; [|reflexivity].
    unfold with_priority in *. simpl in *. rewrite IH.
    destruct (eqb (priority cs x) k) eqn:Ex,
             (eqb (priority cs y) k) eqn:Ey; try reflexivity.
    exfalso. rewrite JsFacts.eqb_sym in Ey.
    pose proof (JsFacts.eqb_trans _ _ _ Ex Ey) as Exy.
    apply JsFacts.eqb_leb in Exy.
    rewrite JsFacts.eqb_sym in Ex, Ey.
    pose proof (JsFacts.eqb_trans _ _ _ Ey Ex) as Eyx.
    apply JsFacts.eqb_leb, JsFacts.leb_gtb in Eyx.
    unfold gtb in Eyx. congruence.
Qed.

Lemma sort_with_priority (k : num) (l : list Order.t) :
  with_priority cs k (sort (compareOrders cs) l) = with_priority cs k l.
Proof.
  induction l as [|x xs IH]; simpl.
  - reflexivity.
  - rewrite insert_with_priority. unfold with_priority in *. simpl.
    rewrite IH. reflexivity.
Qed.

Lemma with_priority_head (x : Order.t) (l : list Order.t) :
  with_priority cs (priority cs x) (x :: l)
  = x :: with_priority cs (priority cs x) l.
Proof.
  unfold with_priority. simpl.
  rewrite (JsFacts.leb_antisym _ _
             (JsFacts.leb_refl _ (priority_not_NaN x))
             (JsFacts.leb_refl _ (priority_not_NaN x))).
  reflexivity.
Qed.

(** Two sorted lists with the same orders of every priority, in the same
    relative order, are the same list. *)
Lemma sorted_stable_eq (l1 l2 : list Order.t) :
  StronglySorted (served_before cs) l1 ->
  StronglySorted (served_before cs) l2 ->
  (forall k, with_priority cs k l1 = with_priority cs k l2) ->
  l1 = l2.
Proof.
  revert l2. induction l1 as [|x t1 IH]; intros [|y t2] H1 H2 Hk.
  - reflexivity.
  - specialize (Hk (priority cs y)). rewrite with_priority_head in Hk.
    discriminate.
  - specialize (Hk (priority cs x)). rewrite with_priority_head in Hk.
    discriminate.
  - inversion H1 as [|? ? Ht1 Hx]; inversion H2 as [|? ? Ht2 Hy]; subst.
    rewrite Forall_forall in Hx, Hy.
    assert (Exy : x = y).
    { pose proof (Hk (priority cs x)) as Kx.
      pose proof (Hk (priority cs y)) as Ky.
      rewrite with_priority_head in Kx, Ky.
      assert (Hin2 : In x (y :: t2)).
      { eapply (proj1 (filter_In _ _ _)). unfold with_priority in Kx.
        rewrite <- Kx. left. reflexivity. }
      assert (Hin1 : In y (x :: t1)).
      { eapply (proj1 (filter_In _ _ _)). unfold with_priority in Ky.
        rewrite Ky. left. reflexivity. }
      destruct Hin2 as [E|Hin2]; [auto|].
      destruct Hin1 as [E|Hin1]; [auto|].
      pose proof (JsFacts.leb_antisym _ _ (Hx _ Hin1) (Hy _ Hin2)) as E.
      unfold with_priority in Kx. simpl in Kx. rewrite E in Kx.
      congruence. }
    subst y. f_equal. apply IH; auto.
    intro k. specialize (Hk k). unfold with_priority in *. simpl in Hk.
    destruct (eqb (priority cs x) k); congruence.
Qed.

(** Every stable sort by priority answers as [sort] does. *)
Lemma sort_unique (l l' : list Order.t) :
  StronglySorted (served_before cs) l' ->
  (forall k, with_priority cs k l' = with_priority cs k l) ->
  l' = sort (compareOrders cs) l.
Proof.
  intros Hs Hk. apply sorted_stable_eq; [exact Hs | apply sort_sorted|].
  intro k. rewrite sort_with_priority. apply Hk.
Qed.
End PrioritySort.

Lemma orders_runAutoAssignment (app : App) :
  orders (state (runAutoAssignment app))
  = fst (fst (allocate (customers (state app))
                (sort (compareOrders (customers (state app)))
                   (orders (state app)))
                (totalStock (state app)))).
Proof.
  unfold runAutoAssignment.
  destruct (allocate _ _ _) as [[os r] es]. reflexivity.
Qed.

(** C4.  [runAutoAssignment] runs its allocation loop over the sequence
    [processing], which is a permutation of the stored orders, sorted by the
    referenced customer's [creditRemaining], largest first, and stable: the
    orders of any one priority follow each other as they did in the input. *)
Theorem priority_order_sorted_stable (app : App) :
  let cs := customers (state app) in
  let processing := sort (compareOrders cs) (orders (state app)) in
  orders (state (runAutoAssignment app))
  = fst (fst (allocate cs processing (totalStock (state app))))
  /\ Permutation (orders (state app)) processing
  /\ StronglySorted (served_before cs) processing
  /\ (forall k,
        with_priority cs k processing
        = with_priority cs k (orders (state app)))
  /\ (forall o c,
        find_customer cs (Order.customerId o) = Some c ->
        isNaN (Customer.creditRemaining c) = false ->
        eqb (priority cs o) (Customer.creditRemaining c) = true).
Proof.
  cbv zeta. repeat split.
  - apply orders_runAutoAssignment.
  - apply sort_Permutation.
  - apply sort_sorted.
  - intro k. apply sort_with_priority.
  - apply priority_credit.
Qed.

Lemma priority_order_sorted_stable_witness :
  find_customer (customers exampleState)
    (Order.customerId (exampleOrder "ORDER-002" "large")) = Some largeCustomer
  /\ isNaN (Customer.creditRemaining largeCustomer) = false
  /\ eqb (priority (customers exampleState) (exampleOrder "ORDER-002" "large"))
         (Customer.creditRemaining largeCustomer) = true.
Proof.
  split; [reflexivity|]. split; [reflexivity|].
  apply (proj2 (proj2 (proj2 (proj2
           (priority_order_sorted_stable exampleApp)))));
    reflexivity.
Defined.

Example example_processing_order :
  map Order.id (sort (compareOrders (customers exampleState))
                  (orders exampleState))
  = ["ORDER-002"; "ORDER-003"; "ORDER-001"].
Proof. reflexivity. Qed.

(* ================================================================== *)
(** ** Auto-assignment keeps the sorted sequence *)

Lemma same_request_refl (o : Order.t) : same_request o o.
Proof. repeat split. Qed.

Lemma allocateOrder_same_request (cs : list Customer.t) (o : Order.t)
    (r : num) :
  same_request o (fst (fst (allocateOrder cs o r))).
Proof.
  unfold allocateOrder.
  destruct (find_customer cs (Order.customerId o)); simpl; repeat split.
Qed.

Lemma allocate_same_request (cs : list Customer.t) (os : list Order.t)
    (r : num) :
  Forall2 same_request os (fst (fst (allocate cs os r))).
Proof.
  revert r. induction os as [|o os IH]; intro r; simpl.
  - constructor.
  - pose proof (allocateOrder_same_request cs o r) as Ho.
    destruct (allocateOrder cs o r) as [[o' r'] e].
    specialize (IH r').
    destruct (allocate cs os r') as [[os' r''] es]. simpl in *.
    constructor; assumption.
Qed.

Lemma same_request_ids (os os' : list Order.t) :
  Forall2 same_request os os' -> map Order.id os' = map Order.id os.
Proof.
  induction 1 as [|o o' os os' Ho _ IH]; simpl.
  - reflexivity.
  - destruct Ho as [-> _]. rewrite IH. reflexivity.
Qed.

Lemma ids_updateAllocation (app : App) (orderId : string) (q : num) :
  ids (state (updateAllocation app orderId q)) = ids (state app).
Proof.
  destruct (update_target (state app) orderId) as [[o c]|] eqn:E.
  - destruct (updateAllocation_found app orderId q o c E)
      as (i & _ & Hn & _ & ->).
    cbv zeta. unfold ids. simpl.
    apply map_set_at with (x := o); [exact Hn | reflexivity].
  - rewrite updateAllocation_not_found by exact E. reflexivity.
Qed.

Lemma ids_resetAllocations (app : App) :
  ids (state (resetAllocations app)) = ids (state app).
Proof.
  unfold ids, resetAllocations. simpl. rewrite map_map. reflexivity.
Qed.






(* ================================================================== *)
(** ** Auto-assignment: the quantity given to one order *)

(** The quantity [Math.max(0, Math.min(requested, remaining, affordable))]
    is [NaN] if an argument is; otherwise it is zero, or the least of the
    three, which is then positive. *)
Lemma allocated_cases (req rem aff : num) :
  let m := Math_min [req; rem; aff] in
  let a := Math_max [zero; m] in
  a = NaN
  \/ (no_NaN [req; rem; aff] /\
      (a = zero \/ (a = m /\ gtb m zero = true))).
Proof.
  cbv zeta. rewrite JsFacts.Math_max_zero, JsFacts.Math_min_isNaN.
  destruct (existsb isNaN [req; rem; aff]) eqn:E; [left; reflexivity|].
  right. split; [exact E|].
  destruct (gtb (Math_min [req; rem; aff]) zero); auto.
Qed.

Lemma ltb_NaN_r (x : num) : ltb x NaN = false.
Proof. destruct x; reflexivity. Qed.

(** Under the preconditions, and for a price that is not the negative
    zero, neither check of the loop body fires. *)
Lemma allocateOrder_no_violation (cs : list Customer.t) (o : Order.t)
    (r : num) :
  forallb (fun c => leb zero (Customer.creditRemaining c)) cs = true ->
  leb zero (Order.pricePerUnit o) = true ->
  isNZero (Order.pricePerUnit o) = false ->
  leb zero (Order.requestedQty o) = true ->
  snd (allocateOrder cs o r) = [].
Proof.
  intros Hcs Hp Hz Hq. unfold allocateOrder.
  destruct (find_customer cs (Order.customerId o)) as [c|] eqn:Ec;
    [|reflexivity].
  assert (Hc : leb zero (Customer.creditRemaining c) = true).
  { apply find_some in Ec as [Hin _].
    rewrite forallb_forall in Hcs. apply Hcs, Hin. }
  cbv zeta. simpl snd.
  set (d := div (Customer.creditRemaining c) (Order.pricePerUnit o)).
  destruct (allocated_cases (Order.requestedQty o) r (floor d))
    as [E|[Hn [E|[E Hpos]]]]; rewrite E.
  - unfold gtb. rewrite !ltb_NaN_r. reflexivity.
  - unfold gtb at 1. unfold d. rewrite JsFacts.div_nonneg by assumption.
    rewrite (JsFacts.leb_gtb _ _ Hq). reflexivity.
  - assert (Hd : isNaN d = false).
    { rewrite <- JsFacts.floor_isNaN.
      apply JsFacts.no_NaN_cons in Hn as [_ Hn].
      apply JsFacts.no_NaN_cons in Hn as [_ Hn].
      apply JsFacts.no_NaN_cons in Hn as [Hn _]. exact Hn. }
    rewrite (JsFacts.leb_gtb _ d).
    + rewrite (JsFacts.leb_gtb _ (Order.requestedQty o)); [reflexivity|].
      apply JsFacts.Math_min_leb; [exact Hn | left; reflexivity].
    + apply JsFacts.leb_trans with (floor d).
      * apply JsFacts.Math_min_leb; [exact Hn | right; right; left; reflexivity].
      * apply JsFacts.floor_leb, Hd.
Qed.

Lemma allocate_no_violation (cs : list Customer.t) (os : list Order.t)
    (r : num) :
  forallb (fun c => leb zero (Customer.creditRemaining c)) cs = true ->
  Forall (fun o => leb zero (Order.pricePerUnit o) = true
                   /\ isNZero (Order.pricePerUnit o) = false
                   /\ leb zero (Order.requestedQty o) = true) os ->
  snd (allocate cs os r) = [].
Proof.
  intros Hcs Hos. revert r.
  induction Hos as [|o os (Hp & Hz & Hq) _ IH]; intro r; simpl.
  - reflexivity.
  - pose proof (allocateOrder_no_violation cs o r Hcs Hp Hz Hq) as Ho.
    destruct (allocateOrder cs o r) as [[o' r'] e].
    specialize (IH r').
    destruct (allocate cs os r') as [[os' r''] es]. simpl in *.
    subst. reflexivity.
Qed.

Lemma errors_runAutoAssignment (app : App) :
  errors (runAutoAssignment app)
  = snd (allocate (customers (state app))
           (sort (compareOrders (customers (state app)))
              (orders (state app)))
           (totalStock (state app))).
Proof.
  unfold runAutoAssignment.
  destruct (allocate _ _ _) as [[os r] es]. reflexivity.
Qed.

(** C9, as the claim states it, fails.  In [negativeZeroState] no credit,
    price or requested quantity is negative: the price is the negative
    zero, which is not less than zero.  The quotient 50 / -0 is
    [-Infinity], the quantity is 0, and the first check fires. *)
Lemma runAutoAssignment_violation_at_negative_zero :
  preconditions negativeZeroState = true
  /\ map Order.allocatedQty (orders (state (runAutoAssignment negativeZeroApp)))
     = [Fin 0]
  /\ errors (runAutoAssignment negativeZeroApp)
     = ["Order ORDER-001: Exceeds customer credit limit"].
Proof. repeat split. Qed.

(** C9, amended.  When no credit, price or requested quantity is negative
    and no price is the negative zero, neither violation check of
    [runAutoAssignment] fires for any order: the message list it leaves is
    empty. *)
Theorem runAutoAssignment_no_violations (app : App) :
  preconditions (state app) = true ->
  positive_zero_prices (state app) = true ->
  errors (runAutoAssignment app) = [].
Proof.
  unfold preconditions, positive_zero_prices. intros H Hz.
  apply andb_true_iff in H as [Hcs Hos].
  rewrite errors_runAutoAssignment.
  apply allocate_no_violation; [exact Hcs|].
  rewrite forallb_forall in Hos, Hz. apply Forall_forall. intros o Ho.
  apply (Permutation_in _
           (Permutation_sym (sort_Permutation (customers (state app)) _)))
    in Ho.
  specialize (Hos o Ho). specialize (Hz o Ho).
  apply andb_true_iff in Hos as [Hp Hq].
  apply negb_true_iff in Hz. auto.
Qed.

Lemma runAutoAssignment_no_violations_witness :
  preconditions (state giftApp) = true
  /\ positive_zero_prices (state giftApp) = true
  /\ errors (runAutoAssignment giftApp) = [].
Proof.
  split; [reflexivity|]. split; [reflexivity|].
  apply runAutoAssignment_no_violations; reflexivity.
Defined.

(* ================================================================== *)
(** ** Auto-assignment at a zero price *)

(** What the loop body does for an order whose customer exists. *)
Lemma allocateOrder_found (cs : list Customer.t) (o : Order.t) (r : num)
    (c : Customer.t) :
  find_customer cs (Order.customerId o) = Some c ->
  let a :=
    Math_max [zero;
              Math_min [Order.requestedQty o; r;
                        floor (div (Customer.creditRemaining c)
                                   (Order.pricePerUnit o))]] in
  fst (allocateOrder cs o r)
  = (Order.with_allocation o a (mul a (Order.pricePerUnit o)), sub r a).
Proof. unfold allocateOrder. intros ->. reflexivity. Qed.

Lemma Math_min_PInf_last (xs : list num) :
  Math_min (xs ++ [PInf]) = Math_min xs.
Proof.
  unfold Math_min. rewrite existsb_app. simpl. rewrite !orb_false_r.
  destruct (existsb isNaN xs); [reflexivity|].
  rewrite fold_left_app. simpl. unfold lower at 1.
  destruct (fold_left lower xs PInf); reflexivity.
Qed.

Lemma affordable_zero_price (credit price : num) :
  eqb price zero = true -> isNZero price = false ->
  gtb credit zero = true ->
  floor (div credit price) = PInf.
Proof.
  intros Hp Hz Hcr.
  destruct credit as [q| | | |], price as [p| | | |]; try discriminate.
  - apply JsFacts.eqb_Fin in Hp. unfold gtb in Hcr.
    apply JsFacts.ltb_Fin in Hcr. simpl.
    destruct (Qcompare_spec p 0); try (exfalso; lra).
    destruct (Qcompare_spec q 0); try (exfalso; lra). reflexivity.
  - apply JsFacts.eqb_Fin in Hp. simpl.
    destruct (Qcompare_spec p 0); try (exfalso; lra). reflexivity.
Qed.

(** At the negative zero the quotient of a positive credit is
    [-Infinity]. *)
Lemma affordable_negative_zero_price (credit : num) :
  isFinite credit = true -> gtb credit zero = true ->
  floor (div credit NZero) = NInf.
Proof.
  intros Hf Hcr. destruct credit as [q| | | |]; try discriminate.
  unfold gtb in Hcr. apply JsFacts.ltb_Fin in Hcr. simpl.
  destruct (Qcompare_spec q 0); try (exfalso; lra). reflexivity.
Qed.

(** A price of [+0] with a positive credit makes affordability unbounded:
    the quantity is limited by the requested quantity and the remaining
    stock only. *)
Lemma allocateOrder_zero_price (cs : list Customer.t) (o : Order.t) (r : num)
    (c : Customer.t) :
  find_customer cs (Order.customerId o) = Some c ->
  eqb (Order.pricePerUnit o) zero = true ->
  isNZero (Order.pricePerUnit o) = false ->
  gtb (Customer.creditRemaining c) zero = true ->
  Order.allocatedQty (fst (fst (allocateOrder cs o r)))
  = Math_max [zero; Math_min [Order.requestedQty o; r]].
Proof.
  intros Hc Hp Hz Hcr. rewrite (allocateOrder_found cs o r c Hc). simpl.
  rewrite (affordable_zero_price _ _ Hp Hz Hcr).
  change [Order.requestedQty o; r; PInf]
    with ([Order.requestedQty o; r] ++ [PInf]).
  rewrite Math_min_PInf_last. reflexivity.
Qed.

(** The code at a zero price and a zero credit.  The quotient is [0 / 0],
    so the order is given [NaN] units instead of the
    [min(requestedQty, remainingStock) = 4] of an unbounded affordability;
    [total] and the running [remainingStock] become [NaN], and with them the
    quantity of the order that follows. *)
Example runAutoAssignment_zero_price_zero_credit :
  preconditions zeroPriceState = true
  /\ map Order.allocatedQty (orders (state (runAutoAssignment zeroPriceApp)))
     = [NaN; NaN]
  /\ map Order.total (orders (state (runAutoAssignment zeroPriceApp)))
     = [NaN; NaN]
  /\ remainingStock (state (runAutoAssignment zeroPriceApp)) = NaN.
Proof. repeat split. Qed.

(** The code at the negative zero for price, which is [== 0] as well, and a
    credit of 50: the quotient is [-Infinity] and the order is given
    nothing, where an unbounded affordability gives the three units
    requested. *)
Example runAutoAssignment_negative_zero_price :
  eqb (Order.pricePerUnit negativeZeroOrder) zero = true
  /\ map Order.allocatedQty
       (orders (state (runAutoAssignment negativeZeroApp))) = [Fin 0]
  /\ Math_max [zero; Math_min [Order.requestedQty negativeZeroOrder;
                               totalStock negativeZeroState]] = Fin 3.
Proof. repeat split. Qed.

Lemma allocate_priority_walk (cs : list Customer.t) (os : list Order.t)
    (r : num) :
  Forall (free_items_covered cs) os ->
  fst (allocate cs os r) = priority_walk cs os r.
Proof.
  intro H. revert r. induction H as [|o os Ho _ IH]; intro r.
  - reflexivity.
  - cbn [allocate priority_walk].
    destruct (find_customer cs (Order.customerId o)) as [c|] eqn:Ec.
    + pose proof (allocateOrder_found cs o r c Ec) as E. cbv zeta in E.
      destruct (allocateOrder cs o r) as [[o' r'] e].
      simpl in E. injection E as -> ->.
      assert (Ea : floor (div (Customer.creditRemaining c)
                            (Order.pricePerUnit o))
                   = if eqb (Order.pricePerUnit o) zero then PInf
                     else floor (div (Customer.creditRemaining c)
                                     (Order.pricePerUnit o))).
      { destruct (eqb (Order.pricePerUnit o) zero) eqn:Ep; [|reflexivity].
        destruct (Ho c Ec Ep) as [Hz Hcr].
        apply affordable_zero_price; assumption. }
      rewrite <- Ea. cbv zeta.
      rewrite <- IH.
      destruct (allocate cs os _) as [[os' r''] es]. reflexivity.
    + unfold allocateOrder. rewrite Ec. rewrite <- IH.
      destruct (allocate cs os r) as [[os' r''] es]. reflexivity.
Qed.

(** C2, as the claim states it, fails twice.  In [orphanState] the order
    without customer is not given a quantity: it keeps its five units when
    no stock remains at its turn, where the formula of the claim gives zero
    whatever the affordable quantity, and the stock left is not the stock
    less the quantities.  In [zeroPriceState] the zero price of a customer
    without credit gives [NaN], where the least of requested quantity and
    stock is 4. *)
Lemma runAutoAssignment_not_every_order :
  (map Order.allocatedQty (orders (state (runAutoAssignment orphanApp)))
   = [Fin 5; Fin 5]
   /\ remainingStock (state (runAutoAssignment orphanApp)) = Fin 0
   /\ forall affordable,
        Math_max [zero; Math_min [Order.requestedQty orphanOrder; Fin 0;
                                  affordable]] <> Fin 5)
  /\ (map Order.allocatedQty (orders (state (runAutoAssignment zeroPriceApp)))
      = [NaN; NaN]
      /\ Math_max [zero; Math_min [Order.requestedQty freeOrder;
                                   totalStock zeroPriceState]] = Fin 4).
Proof.
  split; [|split; reflexivity].
  split; [reflexivity|]. split; [reflexivity|].
  intro affordable. rewrite JsFacts.Math_max_zero.
  set (m := Math_min [Order.requestedQty orphanOrder; Fin 0; affordable]).
  destruct (isNaN m) eqn:En; [discriminate|].
  destruct (gtb m zero) eqn:Eg; [|discriminate].
  exfalso.
  assert (Hn : no_NaN [Order.requestedQty orphanOrder; Fin 0; affordable]).
  { unfold no_NaN. rewrite <- JsFacts.Math_min_isNaN. exact En. }
  pose proof (JsFacts.Math_min_leb _ (Fin 0) Hn
                (or_intror (or_introl eq_refl))) as Hle.
  apply JsFacts.leb_gtb in Hle. fold m in Hle.
  change (Fin 0) with zero in Hle. rewrite Hle in Eg. discriminate.
Qed.

(** C2, amended.  When the zero-priced orders have the price [+0] and
    belong to customers with a positive credit, [runAutoAssignment] leaves
    the orders and the
    [remainingStock] of the walk of the specification over the
    priority-sorted orders, seeded with [totalStock]: an order without
    customer is passed over, every other order gets
    [max(0, min(requestedQty, remainingStock, maxAffordableQty))], with an
    unbounded affordability at a zero price, and its [total]. *)
Theorem runAutoAssignment_walk (app : App) :
  Forall (free_items_covered (customers (state app))) (orders (state app)) ->
  let s := state app in
  let walk :=
    priority_walk (customers s) (sort (compareOrders (customers s)) (orders s))
      (totalStock s) in
  orders (state (runAutoAssignment app)) = fst walk
  /\ remainingStock (state (runAutoAssignment app)) = snd walk.
Proof.
  intros H s walk.
  assert (E : fst (allocate (customers s)
                     (sort (compareOrders (customers s)) (orders s))
                     (totalStock s)) = walk).
  { apply allocate_priority_walk. apply Forall_forall. intros o Ho.
    rewrite Forall_forall in H. apply H.
    apply (Permutation_in _
             (Permutation_sym (sort_Permutation (customers s) _))), Ho. }
  unfold runAutoAssignment. fold s.
  destruct (allocate _ _ _) as [[os r] es]. simpl in E. rewrite <- E.
  split; reflexivity.
Qed.

Lemma free_items_covered_giftState :
  Forall (free_items_covered (customers giftState)) (orders giftState).
Proof.
  apply Forall_forall. intros o Ho c Hc Hp.
  destruct Ho as [<-|[<-|[<-|[<-|[]]]]]; try discriminate Hp.
  injection Hc as <-. split; reflexivity.
Defined.

Lemma runAutoAssignment_walk_witness :
  Forall (free_items_covered (customers (state giftApp)))
    (orders (state giftApp))
  /\ orders (state (runAutoAssignment giftApp))
     = fst (priority_walk (customers giftState)
              (sort (compareOrders (customers giftState))
                 (orders giftState))
              (totalStock giftState))
  /\ map (fun o => (Order.id o, Order.pricePerUnit o, Order.allocatedQty o))
       (fst (priority_walk (customers giftState)
               (sort (compareOrders (customers giftState))
                  (orders giftState))
               (totalStock giftState)))
     = [ ("ORDER-000", Fin 0, Fin 4); ("ORDER-002", Fin 10, Fin 4);
         ("ORDER-003", Fin 10, Fin 0); ("ORDER-001", Fin 10, Fin 0) ].
Proof.
  split; [exact free_items_covered_giftState|].
  split; [|reflexivity].
  exact (proj1 (runAutoAssignment_walk giftApp
                  free_items_covered_giftState)).
Defined.

(* ================================================================== *)
(** ** Counts, amounts and sums *)

Section Sums.
Local Open Scope Q_scope.

Lemma finite_nonneg_Fin (x : num) :
  finite_nonneg x = true <-> exists q, x = Fin q /\ 0 <= q.
Proof.
  unfold finite_nonneg. split.
  - destruct x as [q| | | |]; try discriminate.
    intro H. exists q. split; [reflexivity | apply Qle_bool_iff, H].
  - intros (q & -> & Hq). apply Qle_bool_iff, Hq.
Qed.

(** The whole finite numbers are the integers. *)
Lemma whole_Fin (q : Q) :
  whole (Fin q) = true <-> exists z : Z, q == inject_Z z.
Proof.
  unfold whole. cbn [floor eqb]. rewrite Qeq_bool_iff. split.
  - intro H. exists (Qfloor q). symmetry. exact H.
  - intros (z & Hz). rewrite Hz at 1. rewrite Qfloor_Z. symmetry. exact Hz.
Qed.

Lemma whole_sub (x y : Q) :
  whole (Fin x) = true -> whole (Fin y) = true -> whole (Fin (x - y)) = true.
Proof.
  rewrite !whole_Fin. intros (a & Ha) (b & Hb). exists (a - b)%Z.
  rewrite Ha, Hb. unfold Zminus, Qminus.
  rewrite inject_Z_plus, inject_Z_opp. reflexivity.
Qed.

Lemma whole_add (x y : Q) :
  whole (Fin x) = true -> whole (Fin y) = true -> whole (Fin (x + y)) = true.
Proof.
  rewrite !whole_Fin. intros (a & Ha) (b & Hb). exists (a + b)%Z.
  rewrite Ha, Hb, inject_Z_plus. reflexivity.
Qed.

Lemma whole_eq (x y : Q) :
  x == y -> whole (Fin x) = true -> whole (Fin y) = true.
Proof.
  rewrite !whole_Fin. intros E (a & Ha). exists a. rewrite <- E. exact Ha.
Qed.

Lemma whole_floor (x : num) : isNaN x = false -> whole (floor x) = true.
Proof.
  destruct x as [q| | | |]; intro; try reflexivity; try discriminate.
  cbn [floor]. apply whole_Fin. exists (Qfloor q). reflexivity.
Qed.

Lemma count_Fin (x : num) :
  count x = true
  <-> exists q, x = Fin q /\ 0 <= q /\ q <= MAX_SAFE_INTEGER
                /\ whole (Fin q) = true.
Proof.
  unfold count. split.
  - destruct x as [q| | | |]; try discriminate. intro H.
    apply andb_true_iff in H as [H Hw].
    apply andb_true_iff in H as [H0 H1].
    apply Qle_bool_iff in H0, H1. exists q. auto.
  - intros (q & -> & H0 & H1 & Hw).
    apply Qle_bool_iff in H0, H1. rewrite H0, H1, Hw. reflexivity.
Qed.

Lemma count_intro (q : Q) :
  0 <= q -> q <= MAX_SAFE_INTEGER -> whole (Fin q) = true ->
  count (Fin q) = true.
Proof. intros. apply count_Fin. exists q. auto. Qed.

Lemma count_zero : count zero = true.
Proof. reflexivity. Qed.

(** A whole number that is at most [x] is at most its floor. *)
Lemma whole_leb_floor (a : Q) (x : num) :
  whole (Fin a) = true -> leb (Fin a) x = true ->
  leb (Fin a) (floor x) = true.
Proof.
  intros Hw H. destruct x as [q| | | |]; try exact H.
  cbn [floor]. apply JsFacts.leb_Fin in H. apply JsFacts.leb_Fin.
  apply whole_Fin in Hw as (z & Hz). rewrite Hz in *.
  rewrite <- Zle_Qle. apply Qfloor_resp_le in H.
  rewrite Qfloor_Z in H. exact H.
Qed.

Lemma fold_add_finite (os : list Order.t) (acc : Q) :
  Forall finitely_allocated os ->
  exists q,
    fold_left (fun sum o => add sum (Order.allocatedQty o)) os (Fin acc)
    = Fin q
    /\ q == acc + allocatedQ os.
Proof.
  intro H. revert acc. induction H as [|o os Ho _ IH]; intro acc; simpl.
  - exists acc. split; [reflexivity | lra].
  - unfold finitely_allocated in Ho.
    destruct (Order.allocatedQty o) as [a| | | |]; try discriminate.
    + destruct (IH (acc + a)) as (q & -> & Hq).
      exists q. split; [reflexivity|]. simpl. lra.
    + destruct (IH acc) as (q & -> & Hq).
      exists q. split; [reflexivity|]. simpl. lra.
Qed.

Lemma allocatedTotal_finite (os : list Order.t) :
  Forall finitely_allocated os ->
  exists q, allocatedTotal os = Fin q /\ q == allocatedQ os.
Proof.
  intro H. destruct (fold_add_finite os 0 H) as (q & E & Hq).
  exists q. split; [exact E | lra].
Qed.

Lemma allocatedQ_remove_at (os : list Order.t) (i : nat) (o : Order.t) :
  nth_error os i = Some o ->
  allocatedQ (remove_at i os)
  == allocatedQ os - toQ (Order.allocatedQty o).
Proof.
  revert i. induction os as [|x xs IH]; intros [|i] H; simpl in *;
    try discriminate.
  - injection H as ->. lra.
  - rewrite (IH i H). lra.
Qed.

Lemma allocatedQ_set_at (os : list Order.t) (i : nat) (o o' : Order.t) :
  nth_error os i = Some o ->
  allocatedQ (set_at i o' os)
  == allocatedQ os - toQ (Order.allocatedQty o)
     + toQ (Order.allocatedQty o').
Proof.
  revert i. induction os as [|x xs IH]; intros [|i] H; simpl in *;
    try discriminate.
  - injection H as ->. lra.
  - rewrite (IH i H). lra.
Qed.

(** Counts add up to a whole number that is not negative. *)
Lemma allocatedQ_counts (os : list Order.t) :
  Forall (fun o => count (Order.allocatedQty o) = true) os ->
  0 <= allocatedQ os /\ whole (Fin (allocatedQ os)) = true.
Proof.
  induction 1 as [|o os Ho _ [IH0 IHw]]; simpl.
  - split; [lra | reflexivity].
  - apply count_Fin in Ho as (a & -> & Ha0 & _ & Haw). simpl.
    split; [lra | apply whole_add; assumption].
Qed.

Lemma Forall_set_at {A : Type} (P : A -> Prop) (l : list A) (i : nat)
    (y : A) :
  Forall P l -> P y -> Forall P (set_at i y l).
Proof.
  intros H Hy. revert i.
  induction H as [|x xs Hx Hxs IH]; intros [|i]; simpl.
  - constructor.
  - constructor.
  - constructor; assumption.
  - constructor; [assumption | apply IH].
Qed.

(** The quotient credit / price of two amounts, when it is defined, is
    not negative, and neither is its floor. *)
Lemma affordable_nonneg (cr p : Q) :
  0 <= cr -> 0 <= p -> ~ (p == 0 /\ cr == 0) ->
  leb zero (floor (div (Fin cr) (Fin p))) = true
  /\ negative (floor (div (Fin cr) (Fin p))) = false.
Proof.
  intros Hcr Hp Hdef. cbn [div].
  destruct (Qcompare_spec p 0) as [E|E|E].
  - destruct (Qcompare_spec cr 0); try (split; reflexivity); exfalso;
      [tauto | lra].
  - exfalso. lra.
  - cbn [floor].
    assert (H0 : 0 <= cr / p) by (apply Qle_shift_div_l; lra).
    apply Qfloor_resp_le in H0. change (Qfloor 0) with 0%Z in H0.
    rewrite Zle_Qle in H0. change (inject_Z 0) with 0 in H0.
    set (f := inject_Z (Qfloor (cr / p))) in *. clearbody f.
    split; [apply JsFacts.leb_Fin, H0|].
    cbn [negative]. destruct (Qcompare_spec f 0); try reflexivity.
    exfalso. lra.
Qed.

(** Within the quotient, quantity times price stays within the credit. *)
Lemma quotient_bound (cr p a : Q) :
  0 < p -> a <= cr / p -> a * p <= cr.
Proof.
  intros Hp H.
  assert (Hap : a * p <= cr / p * p)
    by (apply Qmult_le_compat_r; [exact H | lra]).
  assert (Hq : cr / p * p == cr) by (field; lra).
  rewrite Hq in Hap. exact Hap.
Qed.
End Sums.

(* ================================================================== *)
(** ** The invariants after auto-assignment *)

Section AutoInvariants.
Local Open Scope Q_scope.

(** The least of numbers that are not negative, one of them finite: it is
    one of them, finite and not negative. *)
Lemma Math_min_finite (xs : list num) (q : Q) :
  no_NaN xs -> In (Fin q) xs ->
  Forall (fun x => negative x = false) xs ->
  exists m, Math_min xs = Fin m /\ 0 <= m /\ In (Fin m) xs
            /\ forall x, In x xs -> leb (Fin m) x = true.
Proof.
  intros Hn Hq Hpos.
  pose proof (JsFacts.Math_min_leb xs (Fin q) Hn Hq) as Hle.
  assert (Hall : forall x, In x xs -> leb (Math_min xs) x = true)
    by (intros; apply JsFacts.Math_min_leb; assumption).
  rewrite JsFacts.Math_min_no_NaN in * by exact Hn.
  destruct (JsFacts.fold_lower_In xs PInf) as [E|Hin].
  - rewrite E in Hle. discriminate.
  - rewrite Forall_forall in Hpos. pose proof (Hpos _ Hin) as Hm.
    destruct (fold_left lower xs PInf) as [m| | | |]; try discriminate.
    exists m. split; [reflexivity|]. split; [|split; assumption].
    simpl in Hm. destruct (Qcompare_spec m 0); try discriminate; lra.
Qed.

Lemma truthy_defined (p cr : Q) :
  truthy (Fin p) || truthy (Fin cr) = true -> ~ (p == 0 /\ cr == 0).
Proof.
  unfold truthy. intros H [Hp Hcr].
  apply Qeq_bool_iff in Hp, Hcr. rewrite Hp, Hcr in H. discriminate.
Qed.

Lemma negative_count (x : num) : count x = true -> negative x = false.
Proof.
  intro H. apply count_Fin in H as (q & -> & H0 & _). simpl.
  destruct (Qcompare_spec q 0); try reflexivity. lra.
Qed.

(** The quantity of the automatic pass is a count within its bounds. *)
Lemma auto_quantity (qr rq : Q) (aff : num) :
  count (Fin qr) = true -> count (Fin rq) = true ->
  leb zero aff = true -> negative aff = false -> whole aff = true ->
  exists a,
    Math_max [zero; Math_min [Fin qr; Fin rq; aff]] = Fin a
    /\ count (Fin a) = true
    /\ a <= qr /\ a <= rq /\ leb (Fin a) aff = true.
Proof.
  intros Hqr Hrq Haff Hneg Hw.
  destruct (Math_min_finite [Fin qr; Fin rq; aff] qr)
    as (m & E & Hm & Hin & Hle).
  - unfold no_NaN. simpl.
    rewrite (JsFacts.leb_not_NaN_r _ _ Haff). reflexivity.
  - left. reflexivity.
  - repeat constructor; try assumption; apply negative_count; assumption.
  - rewrite E, JsFacts.Math_max_zero. simpl isNaN. cbv iota.
    pose proof (Hle (Fin qr) (or_introl eq_refl)) as H1.
    pose proof (Hle (Fin rq) (or_intror (or_introl eq_refl))) as H2.
    pose proof (Hle aff (or_intror (or_intror (or_introl eq_refl)))) as H3.
    apply JsFacts.leb_Fin in H1, H2.
    assert (Hwm : whole (Fin m) = true).
    { destruct Hin as [<-|[<-|[<-|[]]]].
      - apply count_Fin in Hqr as (? & [= <-] & _ & _ & H). exact H.
      - apply count_Fin in Hrq as (? & [= <-] & _ & _ & H). exact H.
      - exact Hw. }
    apply count_Fin in Hqr as (? & [= <-] & Hqr0 & Hqr1 & _).
    destruct (gtb (Fin m) zero).
    + exists m. repeat split; try assumption.
      apply count_intro; [exact Hm | lra | exact Hwm].
    + exists 0. repeat split; try assumption.
      apply Qle_trans with m; assumption.
Qed.

Lemma eqb_mul_refl (a p : Q) :
  eqb (mul (Fin a) (Fin p)) (mul (Fin a) (Fin p)) = true.
Proof.
  cbn [mul]. destruct (_ && _); [reflexivity|].
  apply JsFacts.eqb_Fin, Qeq_refl.
Qed.

Lemma order_invariant_allocated (cs : list Customer.t) (o : Order.t)
    (c : Customer.t) (a qr p cr : Q) :
  find_customer cs (Order.customerId o) = Some c ->
  Order.requestedQty o = Fin qr ->
  Order.pricePerUnit o = Fin p ->
  Customer.creditRemaining c = Fin cr ->
  count (Fin a) = true -> a <= qr ->
  leb (Fin a) (floor (div (Fin cr) (Fin p))) = true ->
  order_invariant cs
    (Order.with_allocation o (Fin a) (mul (Fin a) (Fin p)))
  = true.
Proof.
  intros Hc Hqr Hp Hcr H0 H1 H2. unfold order_invariant.
  cbn [Order.with_allocation Order.allocatedQty Order.requestedQty
       Order.total Order.pricePerUnit Order.customerId].
  rewrite Hc, Hqr, Hp, Hcr, H0, eqb_mul_refl.
  rewrite (proj2 (JsFacts.leb_Fin a qr) H1).
  assert (Hd : leb (Fin a) (div (Fin cr) (Fin p)) = true).
  { apply JsFacts.leb_trans with (floor (div (Fin cr) (Fin p)));
      [exact H2|].
    apply JsFacts.floor_leb. rewrite <- JsFacts.floor_isNaN.
    apply (JsFacts.leb_not_NaN_r _ _ H2). }
  rewrite Hd, orb_true_r. reflexivity.
Qed.

Variable cs : list Customer.t.
Hypothesis customers_ok :
  forallb (fun c => finite_nonneg (Customer.creditRemaining c)) cs = true.

Lemma allocateOrder_step (o : Order.t) (rq : Q) :
  auto_ready cs o -> count (Fin rq) = true ->
  exists o' a,
    fst (allocateOrder cs o (Fin rq)) = (o', Fin (rq - a))
    /\ Order.allocatedQty o' = Fin a
    /\ 0 <= a /\ a <= rq
    /\ count (Fin (rq - a)) = true
    /\ order_invariant cs o' = true.
Proof.
  intros (Hp & Hq & Hd) Hrq.
  apply finite_nonneg_Fin in Hp as (p & Ep & Hp).
  pose proof Hq as Hq'.
  apply count_Fin in Hq' as (qr & Eqr & Hqr & _).
  unfold quotient_defined in Hd.
  destruct (find_customer cs (Order.customerId o)) as [c|] eqn:Ec;
    [|discriminate].
  assert (Hc : finite_nonneg (Customer.creditRemaining c) = true).
  { apply find_some in Ec as [Hin _].
    rewrite forallb_forall in customers_ok. apply customers_ok, Hin. }
  apply finite_nonneg_Fin in Hc as (cr & Ecr & Hcr).
  rewrite Ep, Ecr in Hd. apply truthy_defined in Hd.
  rewrite (allocateOrder_found cs o (Fin rq) c Ec). cbv zeta.
  rewrite Eqr, Ecr, Ep. rewrite Eqr in Hq.
  destruct (affordable_nonneg cr p Hcr Hp Hd) as [Haff Hneg].
  destruct (auto_quantity qr rq (floor (div (Fin cr) (Fin p))) Hq Hrq
              Haff Hneg)
    as (a & Ea & Hca & Ha1 & Ha2 & Ha3).
  { apply whole_floor. rewrite <- JsFacts.floor_isNaN.
    apply (JsFacts.leb_not_NaN_r _ _ Haff). }
  rewrite Ea.
  pose proof Hca as Hca'.
  apply count_Fin in Hca' as (? & [= <-] & Ha0 & _ & Haw).
  pose proof Hrq as Hrq'.
  apply count_Fin in Hrq' as (? & [= <-] & Hrq0 & Hrq1 & Hrqw).
  exists (Order.with_allocation o (Fin a) (mul (Fin a) (Fin p))), a.
  split; [reflexivity|]. split; [reflexivity|].
  split; [exact Ha0|]. split; [exact Ha2|].
  split.
  - apply count_intro; [lra | lra | apply whole_sub; assumption].
  - apply (order_invariant_allocated cs o c a qr p cr); assumption.
Qed.

Lemma allocate_invariants (os : list Order.t) (rq : Q) :
  Forall (auto_ready cs) os -> count (Fin rq) = true ->
  exists os' rq',
    fst (allocate cs os (Fin rq)) = (os', Fin rq')
    /\ 0 <= rq'
    /\ Forall finitely_allocated os'
    /\ forallb (order_invariant cs) os' = true
    /\ allocatedQ os' == rq - rq'.
Proof.
  intro H. revert rq. induction H as [|o os Ho _ IH]; intros rq Hrq.
  - exists [], rq. simpl.
    apply count_Fin in Hrq as (? & [= <-] & Hrq0 & _).
    repeat split; auto. lra.
  - destruct (allocateOrder_step o rq Ho Hrq)
      as (o' & a & E & Ea & Ha0 & Ha1 & Hrq' & Hinv).
    destruct (IH (rq - a) Hrq')
      as (os' & rq' & E' & Hrq'0 & Hfin & Hall & Hsum).
    exists (o' :: os'), rq'. simpl.
    destruct (allocateOrder cs o (Fin rq)) as [[o1 r1] e1].
    simpl in E. injection E as -> ->.
    destruct (allocate cs os (Fin (rq - a))) as [[os1 r2] e2].
    simpl in E'. injection E' as -> ->.
    simpl. repeat split.
    + exact Hrq'0.
    + constructor; [|exact Hfin]. unfold finitely_allocated.
      rewrite Ea. reflexivity.
    + rewrite Hinv, Hall. reflexivity.
    + rewrite Ea. simpl. lra.
Qed.
End AutoInvariants.

(* ================================================================== *)
(** ** The invariants after each operation *)

Section Invariants.
Local Open Scope Q_scope.

Lemma finite_preconditions_inv (s : AllocationState) :
  finite_preconditions s = true ->
  (exists t, totalStock s = Fin t /\ count (Fin t) = true)
  /\ forallb (fun c => finite_nonneg (Customer.creditRemaining c))
       (customers s) = true
  /\ forall o, In o (orders s) ->
       finite_nonneg (Order.pricePerUnit o) = true
       /\ count (Order.requestedQty o) = true.
Proof.
  unfold finite_preconditions. intro H.
  apply andb_true_iff in H as [H Hos].
  apply andb_true_iff in H as [Ht Hcs].
  split.
  { pose proof Ht as Ht'. apply count_Fin in Ht' as (t & Et & _).
    exists t. rewrite <- Et. auto. }
  split; [exact Hcs|].
  intros o Ho. rewrite forallb_forall in Hos.
  apply andb_true_iff, Hos, Ho.
Qed.

Lemma invariants_intro (s : AllocationState) (t q : Q) :
  forallb (order_invariant (customers s)) (orders s) = true ->
  totalStock s = Fin t ->
  allocatedTotal (orders s) = Fin q ->
  q <= t ->
  eqb (remainingStock s) (Fin (t - q)) = true ->
  invariants s = true.
Proof.
  intros Hos Ht Hq Hle Hr. unfold invariants.
  rewrite Hos, Ht, Hq. cbn [sub]. rewrite Hr.
  rewrite (proj2 (JsFacts.leb_Fin q t) Hle). reflexivity.
Qed.

(** What the invariants say of the orders and of the stock. *)
Lemma invariants_inv (s : AllocationState) :
  invariants s = true ->
  Forall (fun o => order_invariant (customers s) o = true) (orders s)
  /\ Forall (fun o => count (Order.allocatedQty o) = true) (orders s)
  /\ Forall finitely_allocated (orders s)
  /\ leb (allocatedTotal (orders s)) (totalStock s) = true
  /\ eqb (remainingStock s) (sub (totalStock s) (allocatedTotal (orders s)))
     = true.
Proof.
  unfold invariants. intro H.
  apply andb_true_iff in H as [H Hr].
  apply andb_true_iff in H as [Hos Hle].
  assert (Hall : Forall (fun o => order_invariant (customers s) o = true)
                   (orders s))
    by (apply Forall_forall, forallb_forall, Hos).
  assert (Hc : Forall (fun o => count (Order.allocatedQty o) = true)
                 (orders s)).
  { eapply Forall_impl; [|exact Hall]. intros o Ho.
    unfold order_invariant in Ho.
    apply andb_true_iff in Ho as [Ho _].
    apply andb_true_iff in Ho as [Ho _].
    apply andb_true_iff in Ho as [Ho _]. exact Ho. }
  repeat split; try assumption.
  eapply Forall_impl; [|exact Hc]. intros o Ho.
  apply count_Fin in Ho as (a & Ea & _).
  unfold finitely_allocated. rewrite Ea. reflexivity.
Qed.

Lemma invariants_runAutoAssignment (app : App) :
  well_formed (state app) = true ->
  invariants (state (runAutoAssignment app)) = true.
Proof.
  unfold well_formed. intro H. apply andb_true_iff in H as [Hf Hd].
  apply finite_preconditions_inv in Hf as ((t & Et & Ht) & Hcs & Hos).
  assert (Hready : Forall (auto_ready (customers (state app)))
                     (sort (compareOrders (customers (state app)))
                        (orders (state app)))).
  { apply Forall_forall. intros o Ho.
    apply (Permutation_in _
             (Permutation_sym (sort_Permutation (customers (state app)) _)))
      in Ho.
    destruct (Hos o Ho) as [Hp Hq]. rewrite forallb_forall in Hd.
    repeat split; auto. }
  destruct (allocate_invariants (customers (state app)) Hcs _ t Hready Ht)
    as (os' & rq' & E & Hrq' & Hfin & Hall & Hsum).
  unfold runAutoAssignment. rewrite Et.
  destruct (allocate _ _ (Fin t)) as [[os1 r1] e1].
  simpl in E. injection E as -> ->.
  destruct (allocatedTotal_finite os' Hfin) as (q & Eq & Hq).
  apply invariants_intro with (t := t) (q := q); simpl; auto.
  - lra.
  - apply JsFacts.eqb_Fin. lra.
Qed.

Lemma allocatedQ_reset (os : list Order.t) :
  allocatedQ (map (fun o => Order.with_allocation o zero zero) os) == 0.
Proof.
  induction os as [|o os IH]; simpl; [reflexivity|]. rewrite IH. lra.
Qed.

Lemma invariants_resetAllocations (app : App) :
  finite_preconditions (state app) = true ->
  invariants (state (resetAllocations app)) = true.
Proof.
  intro Hf.
  apply finite_preconditions_inv in Hf as ((t & Et & Ht) & Hcs & Hos).
  apply count_Fin in Ht as (? & [= <-] & Ht0 & _).
  set (os' := map (fun o => Order.with_allocation o zero zero)
                (orders (state app))).
  assert (Hfin : Forall finitely_allocated os').
  { apply Forall_map, Forall_forall. intros o _. reflexivity. }
  destruct (allocatedTotal_finite os' Hfin) as (q & Eq & Hq).
  unfold os' in Hq. rewrite allocatedQ_reset in Hq.
  apply invariants_intro with (t := t) (q := q);
    unfold resetAllocations; simpl; auto.
  - apply forallb_forall. intros o' Ho'.
    apply in_map_iff in Ho' as (o & <- & Ho).
    destruct (Hos o Ho) as [Hp Hq'].
    apply finite_nonneg_Fin in Hp as (p & Ep & Hp).
    apply count_Fin in Hq' as (qr & Eqr & Hqr & _).
    unfold order_invariant.
    cbn [Order.with_allocation Order.allocatedQty Order.requestedQty
         Order.total Order.pricePerUnit Order.customerId].
    rewrite Ep, Eqr, count_zero. unfold zero.
    rewrite (proj2 (JsFacts.leb_Fin 0 qr) Hqr).
    assert (Em : eqb (Fin 0) (mul (Fin 0) (Fin p)) = true).
    { cbn [mul]. destruct (_ && _); [reflexivity|].
      apply JsFacts.eqb_Fin. lra. }
    rewrite Em. destruct (find_customer _ _); reflexivity.
  - lra.
  - rewrite Et. apply JsFacts.eqb_Fin. lra.
Qed.

Lemma leb_add_zero (x t : num) :
  leb x t = true -> leb (add x (Fin 0)) t = true.
Proof. destruct x, t; intro; JsFacts.num_crush. Qed.

Lemma eqb_sub_add_zero (r t x : num) :
  eqb r (sub t x) = true -> eqb r (sub t (add x (Fin 0))) = true.
Proof.
  destruct r, t, x; intro; try discriminate; try reflexivity;
    unfold sub, neg, add, eqb in *; JsFacts.qcases;
    try reflexivity; try discriminate; try (exfalso; lra);
    simpl in *; JsFacts.qcases;
    try reflexivity; try discriminate; exfalso; lra.
Qed.

Lemma invariants_addNewOrder (app : App) :
  invariants (state app) = true ->
  invariants (state (addNewOrder app)) = true.
Proof.
  unfold invariants, addNewOrder. intros Hi. simpl.
  apply andb_true_iff in Hi as [Hi Hr].
  apply andb_true_iff in Hi as [Hos Hle].
  unfold allocatedTotal in *. rewrite fold_left_app. simpl.
  rewrite forallb_app, Hos. simpl.
  rewrite (leb_add_zero _ _ Hle), (eqb_sub_add_zero _ _ _ Hr).
  rewrite !andb_true_r. unfold order_invariant. simpl.
  destruct (find_customer _ _); reflexivity.
Qed.

(** Where prices and credits are whole numbers up to [MAX_SAFE_INTEGER],
    the invariant of an order gives the credit ceiling as a product. *)
Lemma order_invariant_product (cs : list Customer.t) (o : Order.t)
    (c : Customer.t) :
  order_invariant cs o = true ->
  find_customer cs (Order.customerId o) = Some c ->
  count (Order.pricePerUnit o) = true ->
  count (Customer.creditRemaining c) = true ->
  leb (mul (Order.allocatedQty o) (Order.pricePerUnit o))
      (Customer.creditRemaining c) = true.
Proof.
  unfold order_invariant. intros H Hc Hp Hcr. rewrite Hc in H.
  apply andb_true_iff in H as [H H4].
  apply andb_true_iff in H as [H _].
  apply andb_true_iff in H as [Ha _].
  apply count_Fin in Ha as (a & Ea & Ha0 & _).
  apply count_Fin in Hp as (p & Ep & Hp0 & _).
  apply count_Fin in Hcr as (cr & Ecr & Hcr0 & _).
  rewrite Ea, Ep, Ecr in *. cbn [mul].
  assert (Hs : xorb (negative (Fin a)) (negative (Fin p)) = false).
  { simpl. destruct (Qcompare_spec a 0), (Qcompare_spec p 0);
      try reflexivity; exfalso; lra. }
  rewrite Hs, andb_false_r. apply JsFacts.leb_Fin.
  apply orb_true_iff in H4 as [H4|H4].
  - apply JsFacts.eqb_Fin in H4. rewrite H4. lra.
  - simpl in H4. destruct (Qcompare_spec p 0) as [E|E|E].
    + rewrite E. lra.
    + lra.
    + apply JsFacts.leb_Fin in H4. apply quotient_bound; assumption.
Qed.
End Invariants.

Section UpdateInvariants.
Local Open Scope Q_scope.

(** The quantity of a manual update is a count within its bounds. *)
Lemma update_quantity (q aff : num) (qr av : Q) :
  whole q = true -> count (Fin qr) = true -> count (Fin av) = true ->
  leb zero aff = true -> negative aff = false -> whole aff = true ->
  exists c,
    Math_min [Math_max [zero; q]; Fin qr; aff; Fin av] = Fin c
    /\ count (Fin c) = true
    /\ c <= qr /\ c <= av /\ leb (Fin c) aff = true.
Proof.
  intros Hq Hqr Hav Haff Hneg Hw.
  assert (Hmax : isNaN (Math_max [zero; q]) = false
                 /\ negative (Math_max [zero; q]) = false
                 /\ whole (Math_max [zero; q]) = true).
  { rewrite JsFacts.Math_max_zero.
    destruct q as [x| | | |]; try discriminate; try (repeat split; fail).
    cbn [isNaN]. destruct (gtb (Fin x) zero) eqn:E;
      [|repeat split].
    unfold gtb in E. apply JsFacts.ltb_Fin in E.
    split; [reflexivity|]. split; [|exact Hq].
    simpl. destruct (Qcompare_spec x 0); try reflexivity. lra. }
  destruct Hmax as (Hn & Hpos & Hwm).
  destruct (Math_min_finite [Math_max [zero; q]; Fin qr; aff; Fin av] qr)
    as (c & E & Hc & Hin & Hle).
  - unfold no_NaN. simpl.
    rewrite Hn, (JsFacts.leb_not_NaN_r _ _ Haff). reflexivity.
  - right. left. reflexivity.
  - repeat constructor; try assumption; apply negative_count; assumption.
  - exists c. split; [exact E|].
    pose proof (Hle (Fin qr) (or_intror (or_introl eq_refl))) as H1.
    pose proof (Hle aff (or_intror (or_intror (or_introl eq_refl)))) as H2.
    pose proof (Hle (Fin av)
                  (or_intror (or_intror (or_intror (or_introl eq_refl)))))
      as H3.
    apply JsFacts.leb_Fin in H1, H3.
    assert (Hwc : whole (Fin c) = true).
    { destruct Hin as [Ec|[<-|[<-|[<-|[]]]]].
      - rewrite <- Ec. exact Hwm.
      - apply count_Fin in Hqr as (? & [= <-] & _ & _ & H). exact H.
      - exact Hw.
      - apply count_Fin in Hav as (? & [= <-] & _ & _ & H). exact H. }
    apply count_Fin in Hqr as (? & [= <-] & _ & Hqr1 & _).
    repeat split; try assumption.
    apply count_intro; [exact Hc | lra | exact Hwc].
Qed.

Lemma invariants_updateAllocation (app : App) (orderId : string)
    (newQty : num) :
  well_formed (state app) = true ->
  invariants (state app) = true ->
  unique_ids (state app) ->
  whole newQty = true ->
  invariants (state (updateAllocation app orderId newQty)) = true.
Proof.
  intros Hwf Hinv Huniq Hq.
  destruct (update_target (state app) orderId) as [[order customer]|] eqn:Et;
    [|rewrite updateAllocation_not_found by exact Et; exact Hinv].
  destruct (updateAllocation_found app orderId newQty order customer Et)
    as (i & Hi & Hn & Hid & ->).
  assert (Hc : find_customer (customers (state app))
                 (Order.customerId order) = Some customer).
  { unfold update_target in Et.
    destruct (find_order (state app) orderId) as [o|]; [|discriminate].
    destruct (find_customer (customers (state app)) (Order.customerId o))
      eqn:E; [|discriminate].
    injection Et as -> ->. exact E. }
  unfold well_formed in Hwf. apply andb_true_iff in Hwf as [Hf Hd].
  apply finite_preconditions_inv in Hf as ((t & Etot & Ht) & Hcs & Hos).
  pose proof (nth_error_In _ _ Hn) as Hin.
  destruct (Hos order Hin) as [Hp Hr].
  apply finite_nonneg_Fin in Hp as (p & Ep & Hp).
  pose proof Hr as Hr'. apply count_Fin in Hr' as (qr & Eqr & _).
  rewrite Eqr in Hr.
  rewrite forallb_forall in Hd. specialize (Hd order Hin).
  unfold quotient_defined in Hd. rewrite Hc in Hd.
  assert (Hcr : finite_nonneg (Customer.creditRemaining customer) = true).
  { apply find_some in Hc as [Hc _].
    rewrite forallb_forall in Hcs. apply Hcs, Hc. }
  apply finite_nonneg_Fin in Hcr as (cr & Ecr & Hcr).
  rewrite Ep, Ecr in Hd. apply truthy_defined in Hd.
  destruct (invariants_inv _ Hinv) as (Hall & Hcounts & Hfin & Hle & _).
  pose proof (proj1 (Forall_forall _ _) Hcounts order Hin) as Hca0.
  apply count_Fin in Hca0 as (a0 & Ea0 & Ha0 & _ & Ha0w).
  destruct (allocatedTotal_finite _ Hfin) as (S & ES & HS).
  rewrite ES, Etot in Hle. apply JsFacts.leb_Fin in Hle.
  assert (Hfin' : Forall finitely_allocated
                    (otherOrders (orders (state app)) orderId)).
  { unfold otherOrders. apply Forall_forall. intros o Ho.
    apply filter_In in Ho as [Ho _].
    rewrite Forall_forall in Hfin. apply Hfin, Ho. }
  assert (Hcounts' : Forall (fun o => count (Order.allocatedQty o) = true)
                       (otherOrders (orders (state app)) orderId)).
  { unfold otherOrders. apply Forall_forall. intros o Ho.
    apply filter_In in Ho as [Ho _].
    rewrite Forall_forall in Hcounts. apply Hcounts, Ho. }
  destruct (allocatedTotal_finite _ Hfin') as (O & EO & HO).
  destruct (allocatedQ_counts _ Hcounts') as [HO0 HOw].
  rewrite <- HO in HO0. apply (whole_eq _ O) in HOw; [|symmetry; exact HO].
  rewrite (otherOrders_unique _ _ _ Huniq Hi) in HO.
  rewrite (allocatedQ_remove_at _ _ _ Hn), Ea0 in HO. simpl in HO.
  cbv zeta.
  unfold constrainedQty, maxAffordableQty, maxAvailableQty.
  rewrite currentAllocatedTotal_others, EO, Etot, Eqr, Ecr, Ep.
  cbn [sub].
  pose proof Ht as Ht'.
  apply count_Fin in Ht' as (? & [= <-] & Ht0 & Ht1 & Htw).
  destruct (affordable_nonneg cr p Hcr Hp Hd) as [Haff Hneg].
  destruct (update_quantity newQty (floor (div (Fin cr) (Fin p))) qr
              (t - O) Hq Hr)
    as (c & Ec & Hcc & Hc1 & Hc2 & Hc3); try assumption.
  { apply count_intro; [lra | lra | apply whole_sub; assumption]. }
  { apply whole_floor. rewrite <- JsFacts.floor_isNaN.
    apply (JsFacts.leb_not_NaN_r _ _ Haff). }
  rewrite Ec.
  set (order' := Order.with_allocation order (Fin c) (mul (Fin c) (Fin p))).
  assert (Hfin2 : Forall finitely_allocated
                    (set_at i order' (orders (state app)))).
  { apply Forall_set_at; [exact Hfin | reflexivity]. }
  destruct (allocatedTotal_finite _ Hfin2) as (S' & ES' & HS').
  rewrite (allocatedQ_set_at _ _ _ order' Hn), Ea0 in HS'. simpl in HS'.
  apply invariants_intro with (t := t) (q := S'); simpl; auto.
  - apply forallb_forall. apply Forall_forall.
    apply Forall_set_at; [exact Hall|].
    apply (order_invariant_allocated _ order customer c qr p cr);
      assumption.
  - lra.
  - rewrite ES'. cbn [sub]. apply JsFacts.eqb_Fin. lra.
Qed.
End UpdateInvariants.

(* ================================================================== *)
(** ** C3: the invariants after every operation *)

(** C3, as the claim states it, fails.  In [orphanState] no credit, price or
    requested quantity is negative and the invariants hold; the automatic pass
    skips the order whose customer is missing, keeps its five units without
    counting them, and gives the five units of stock to the other order: ten
    units are allocated out of a stock of five. *)
Lemma invariants_broken_by_skipped_order :
  preconditions orphanState = true
  /\ invariants orphanState = true
  /\ invariants (state (runAutoAssignment orphanApp)) = false
  /\ map Order.allocatedQty (orders (state (runAutoAssignment orphanApp)))
     = [Fin 5; Fin 5]
  /\ totalStock (state (runAutoAssignment orphanApp)) = Fin 5
  /\ leb (allocatedTotal (orders (state (runAutoAssignment orphanApp))))
         (totalStock (state (runAutoAssignment orphanApp))) = false.
Proof. repeat split. Qed.

(** The zero price of a customer without credit breaks them as well. *)
Example invariants_broken_by_zero_over_zero :
  preconditions zeroPriceState = true
  /\ invariants zeroPriceState = true
  /\ invariants (state (runAutoAssignment zeroPriceApp)) = false.
Proof. repeat split. Qed.

(** C3, amended.  The quantities are counts (whole numbers from 0 to
    [MAX_SAFE_INTEGER]) and the credit ceiling is read on the quotient the
    code computes.  Let the stock and the requested quantities be counts
    and the credits and prices be amounts (finite, not negative, and not
    the negative zero).  Then the invariants hold after
    [resetAllocations]; they hold after [runAutoAssignment] if moreover
    every order has a customer and none has price zero with a customer of
    credit zero; where they hold, they hold again after [addNewOrder], and,
    under the conditions of the automatic pass and with unique order ids,
    after [updateAllocation] with a whole quantity.  Where they hold, and
    the price of an order and the credit of its customer are counts,
    quantity times price is within the credit. *)
Theorem invariants_after_operation (app : App) :
  (finite_preconditions (state app) = true ->
   invariants (state (resetAllocations app)) = true)
  /\ (well_formed (state app) = true ->
      invariants (state (runAutoAssignment app)) = true)
  /\ (invariants (state app) = true ->
      invariants (state (addNewOrder app)) = true)
  /\ (well_formed (state app) = true ->
      invariants (state app) = true ->
      unique_ids (state app) ->
      forall orderId newQty,
        whole newQty = true ->
        invariants (state (updateAllocation app orderId newQty)) = true)
  /\ (invariants (state app) = true ->
      forall o c,
        In o (orders (state app)) ->
        find_customer (customers (state app)) (Order.customerId o) = Some c ->
        count (Order.pricePerUnit o) = true ->
        count (Customer.creditRemaining c) = true ->
        leb (mul (Order.allocatedQty o) (Order.pricePerUnit o))
            (Customer.creditRemaining c) = true).
Proof.
  split; [apply invariants_resetAllocations|].
  split; [apply invariants_runAutoAssignment|].
  split; [apply invariants_addNewOrder|].
  split.
  - intros. apply invariants_updateAllocation; assumption.
  - intros Hinv o c Ho Hc Hp Hcr.
    destruct (invariants_inv _ Hinv) as (Hall & _).
    rewrite Forall_forall in Hall.
    apply (order_invariant_product _ o c (Hall o Ho) Hc Hp Hcr).
Qed.

Lemma unique_ids_after_auto :
  unique_ids (state (runAutoAssignment exampleApp)).
Proof.
  unfold unique_ids, ids. simpl.
  repeat constructor; simpl; intuition discriminate.
Defined.

Lemma invariants_after_operation_witness :
  let app := runAutoAssignment exampleApp in
  let served :=
    Order.with_allocation (exampleOrder "ORDER-002" "large") (Fin 5) (Fin 50) in
  finite_preconditions (state app) = true
  /\ well_formed (state app) = true
  /\ invariants (state app) = true
  /\ unique_ids (state app)
  /\ whole (Fin 9) = true
  /\ invariants (state (resetAllocations app)) = true
  /\ invariants (state (runAutoAssignment app)) = true
  /\ invariants (state (addNewOrder app)) = true
  /\ invariants (state (updateAllocation app "ORDER-003" (Fin 9))) = true
  /\ In served (orders (state app))
  /\ find_customer (customers (state app)) (Order.customerId served)
     = Some largeCustomer
  /\ count (Order.pricePerUnit served) = true
  /\ count (Customer.creditRemaining largeCustomer) = true
  /\ leb (mul (Order.allocatedQty served) (Order.pricePerUnit served))
         (Customer.creditRemaining largeCustomer) = true.
Proof.
  cbv zeta.
  destruct (invariants_after_operation (runAutoAssignment exampleApp))
    as (Hr & Ha & Hn & Hu & Hp).
  split; [reflexivity|]. split; [reflexivity|]. split; [reflexivity|].
  split; [exact unique_ids_after_auto|].
  split; [reflexivity|].
  split; [apply Hr; reflexivity|].
  split; [apply Ha; reflexivity|].
  split; [apply Hn; reflexivity|].
  split; [apply Hu; try reflexivity; exact unique_ids_after_auto|].
  split; [left; reflexivity|].
  split; [reflexivity|]. split; [reflexivity|]. split; [reflexivity|].
  apply Hp; try reflexivity. left; reflexivity.
Defined.

(* ================================================================== *)
(** ** Sequences of calls *)

Lemma well_formed_transfer (s s' : AllocationState) :
  totalStock s' = totalStock s ->
  customers s' = customers s ->
  (forall o', In o' (orders s') ->
     exists o, In o (orders s) /\ same_request o o') ->
  well_formed s = true -> well_formed s' = true.
Proof.
  unfold well_formed, finite_preconditions. intros Et Ec Hos H.
  apply andb_true_iff in H as [H Hd].
  apply andb_true_iff in H as [H Ho].
  apply andb_true_iff in H as [Ht Hc].
  rewrite Et, Ec, Ht, Hc. simpl.
  rewrite forallb_forall in Hd, Ho.
  apply andb_true_iff. split; apply forallb_forall; intros o' Hin;
    destruct (Hos o' Hin) as (o & Hino & _ & Hcid & _ & Hreq & _ & Hprice).
  - rewrite <- Hreq, <- Hprice. apply Ho, Hino.
  - unfold quotient_defined. rewrite <- Hcid, <- Hprice. apply Hd, Hino.
Qed.

Lemma Forall2_In_r {A B : Type} (R : A -> B -> Prop) (l : list A)
    (l' : list B) (y : B) :
  Forall2 R l l' -> In y l' -> exists x, In x l /\ R x y.
Proof.
  induction 1 as [|a b l l' Hab _ IH]; intro Hin.
  - destruct Hin.
  - destruct Hin as [<-|Hin].
    + exists a. split; [left; reflexivity | exact Hab].
    + destruct (IH Hin) as (x & Hx & Hr). exists x. split; [right|]; auto.
Qed.

Lemma In_set_at {A : Type} (l : list A) (i : nat) (y z : A) :
  In z (set_at i y l) -> z = y \/ In z l.
Proof.
  revert i. induction l as [|x xs IH]; intros [|i]; simpl; try tauto.
  - intros [<-|H]; auto.
  - intros [<-|H]; auto. destruct (IH i H); auto.
Qed.

Lemma well_formed_runAutoAssignment (app : App) :
  well_formed (state app) = true ->
  well_formed (state (runAutoAssignment app)) = true.
Proof.
  apply well_formed_transfer.
  - unfold runAutoAssignment. destruct (allocate _ _ _) as [[os r] es].
    reflexivity.
  - unfold runAutoAssignment. destruct (allocate _ _ _) as [[os r] es].
    reflexivity.
  - intros o' Hin. rewrite orders_runAutoAssignment in Hin.
    destruct (Forall2_In_r _ _ _ _ (allocate_same_request _ _ _) Hin)
      as (o & Ho & Hr).
    exists o. split; [|exact Hr].
    apply (Permutation_in _
             (Permutation_sym (sort_Permutation (customers (state app)) _))),
      Ho.
Qed.

Lemma well_formed_resetAllocations (app : App) :
  well_formed (state app) = true ->
  well_formed (state (resetAllocations app)) = true.
Proof.
  apply well_formed_transfer; try reflexivity.
  unfold resetAllocations. simpl. intros o' Hin.
  apply in_map_iff in Hin as (o & <- & Ho).
  exists o. split; [exact Ho | repeat split].
Qed.

Lemma well_formed_updateAllocation (app : App) (orderId : string) (q : num) :
  well_formed (state app) = true ->
  well_formed (state (updateAllocation app orderId q)) = true.
Proof.
  destruct (update_target (state app) orderId) as [[o c]|] eqn:E;
    [|rewrite updateAllocation_not_found by exact E; auto].
  destruct (updateAllocation_found app orderId q o c E)
    as (i & _ & Hn & _ & ->).
  apply well_formed_transfer; try reflexivity.
  cbv zeta. simpl. intros o' Hin.
  apply In_set_at in Hin as [->|Hin].
  - exists o. split; [eapply nth_error_In; exact Hn | repeat split].
  - exists o'. split; [exact Hin | apply same_request_refl].
Qed.

Lemma well_formed_addNewOrder (app : App) :
  find_customer (customers (state app)) "company1" <> None ->
  well_formed (state app) = true ->
  well_formed (state (addNewOrder app)) = true.
Proof.
  unfold well_formed, finite_preconditions, addNewOrder. intros Hc H. simpl.
  apply andb_true_iff in H as [H Hd].
  apply andb_true_iff in H as [H Ho].
  rewrite H, !forallb_app, Ho, Hd. simpl.
  unfold quotient_defined. simpl.
  destruct (find_customer (customers (state app)) "company1");
    [reflexivity | contradiction].
Qed.

Lemma finite_preconditions_preconditions (s : AllocationState) :
  finite_preconditions s = true -> preconditions s = true.
Proof.
  unfold finite_preconditions, preconditions. intro H.
  apply andb_true_iff in H as [H Ho].
  apply andb_true_iff in H as [_ Hc].
  rewrite forallb_forall in Ho, Hc.
  apply andb_true_iff. split; apply forallb_forall; intros x Hx.
  - specialize (Hc x Hx).
    apply finite_nonneg_Fin in Hc as (q & E & Hq). rewrite E.
    apply JsFacts.leb_Fin, Hq.
  - specialize (Ho x Hx). apply andb_true_iff in Ho as [H1 H2].
    apply finite_nonneg_Fin in H1 as (p & Ep & Hp).
    apply count_Fin in H2 as (q & Eq & Hq & _). rewrite Ep, Eq.
    apply andb_true_iff; split; apply JsFacts.leb_Fin; assumption.
Qed.

Lemma unique_ids_runAutoAssignment (app : App) :
  unique_ids (state app) -> unique_ids (state (runAutoAssignment app)).
Proof.
  unfold unique_ids, ids. rewrite orders_runAutoAssignment.
  rewrite (same_request_ids _ _ (allocate_same_request _ _ _)).
  apply Permutation_NoDup, Permutation_map, sort_Permutation.
Qed.

(** The three properties a session keeps together. *)
Lemma sound_step (app : App) (op : operation) :
  well_formed (state app) = true ->
  unique_ids (state app) ->
  invariants (state app) = true ->
  admissible app op ->
  well_formed (state (apply_operation app op)) = true
  /\ unique_ids (state (apply_operation app op))
  /\ invariants (state (apply_operation app op)) = true.
Proof.
  intros Hwf Hu Hi Hop.
  destruct op as [|orderId q| |]; cbn [apply_operation admissible] in *.
  - split; [apply well_formed_runAutoAssignment, Hwf|].
    split; [apply unique_ids_runAutoAssignment, Hu|].
    apply invariants_runAutoAssignment, Hwf.
  - split; [apply well_formed_updateAllocation, Hwf|].
    split; [unfold unique_ids; rewrite ids_updateAllocation; exact Hu|].
    apply invariants_updateAllocation; assumption.
  - split; [apply well_formed_resetAllocations, Hwf|].
    split; [unfold unique_ids; rewrite ids_resetAllocations; exact Hu|].
    apply invariants_resetAllocations.
    unfold well_formed in Hwf. apply andb_true_iff in Hwf. tauto.
  - destruct Hop as [Hc Hfresh].
    split; [apply well_formed_addNewOrder; assumption|].
    split.
    + unfold unique_ids, ids, addNewOrder in *. simpl. rewrite map_app.
      simpl. eapply Permutation_NoDup; [apply Permutation_cons_append|].
      constructor; assumption.
    + apply invariants_addNewOrder, Hi.
Qed.

(** Along every sequence of admissible calls from a well-formed state in
    which the invariants hold, they hold after every call. *)
Lemma invariants_along_run (ops : list operation) (app : App) :
  well_formed (state app) = true ->
  unique_ids (state app) ->
  invariants (state app) = true ->
  admissible_run app ops ->
  invariants (state (run app ops)) = true.
Proof.
  revert app. induction ops as [|op ops IH]; intros app Hwf Hu Hi Hops.
  - exact Hi.
  - destruct Hops as [Hop Hops].
    destruct (sound_step app op Hwf Hu Hi Hop) as (Hwf' & Hu' & Hi').
    apply (IH (apply_operation app op)); assumption.
Qed.

(* ================================================================== *)
(** ** The scenarios of the specification *)

(** Scenario 1: a credit of 3000 affords five units at 515.75. *)
Example scenario_auto_assignment :
  let app' := runAutoAssignment initialApp in
  map Order.allocatedQty (orders (state app')) = [Fin 5]
  /\ map Order.total (orders (state app')) = [Fin (10315 # 4)]
  /\ remainingStock (state app') = Fin 5
  /\ eqb (Fin (10315 # 4)) (Fin (257875 # 100)) = true.
Proof. repeat split. Qed.

(** Scenario 2: asking for seven is cut to five by the credit. *)
Example scenario_credit_limit :
  let app' := updateAllocation initialApp "ORDER-001" (Fin 7) in
  map Order.allocatedQty (orders (state app')) = [Fin 5]
  /\ errors app' = ["Order ORDER-001: Limited by customer credit"].
Proof. split; reflexivity. Qed.

(** Scenario 3: with eight of ten units taken, asking for five gives two. *)
Example scenario_stock_limit :
  let app' := updateAllocation sharedStockApp "ORDER-B" (Fin 5) in
  map Order.allocatedQty (orders (state app')) = [Fin 8; Fin 2]
  /\ remainingStock (state app') = Fin 0
  /\ errors app' = ["Order ORDER-B: Limited by available stock"].
Proof. repeat split. Qed.

(** Scenario 5: reset after allocations. *)
Example scenario_reset :
  let app' :=
    resetAllocations
      (updateAllocation (runAutoAssignment exampleApp) "ORDER-001" (Fin 1)) in
  map Order.allocatedQty (orders (state app')) = [Fin 0; Fin 0; Fin 0]
  /\ map Order.total (orders (state app')) = [Fin 0; Fin 0; Fin 0]
  /\ remainingStock (state app') = totalStock (state app')
  /\ errors app' = [].
Proof. repeat split. Qed.

(** A session on the component as it is created. *)
Example session_keeps_invariants :
  invariants
    (state (run initialApp
              [Add; Auto; Update "ORDER-002" (Fin 1); Reset; Auto]))
  = true.
Proof.
  apply invariants_along_run.
  - reflexivity.
  - unfold unique_ids, ids. simpl. repeat constructor. intros [].
  - reflexivity.
  - simpl. repeat split; try discriminate.
    intros [H|[]]. discriminate H.
Qed.

(* ================================================================== *)
(** ** How the operations compose *)

Lemma with_allocation_twice (o : Order.t) (q t q' t' : num) :
  Order.with_allocation (Order.with_allocation o q t) q' t'
  = Order.with_allocation o q' t'.
Proof. reflexivity. Qed.

Lemma set_at_twice {A : Type} (l : list A) (i : nat) (x y : A) :
  set_at i y (set_at i x l) = set_at i y l.
Proof.
  revert i. induction l as [|z zs IH]; intros [|i]; simpl; try reflexivity.
  rewrite IH. reflexivity.
Qed.

Lemma findIndex_set_at {A : Type} (p : A -> bool) (l : list A) (i : nat)
    (y : A) :
  findIndex p l = Some i -> p y = true -> findIndex p (set_at i y l) = Some i.
Proof.
  revert i. induction l as [|x xs IH]; simpl; intros i H Hy.
  - discriminate.
  - destruct (p x) eqn:E.
    + injection H as <-. simpl. rewrite Hy. reflexivity.
    + destruct (findIndex p xs) as [j|]; [|discriminate].
      injection H as <-. simpl. rewrite E, (IH j eq_refl Hy). reflexivity.
Qed.

Lemma nth_error_set_at {A : Type} (l : list A) (i : nat) (x y : A) :
  nth_error l i = Some x -> nth_error (set_at i y l) i = Some y.
Proof.
  revert i. induction l as [|z zs IH]; intros [|i]; simpl; intro H;
    try discriminate.
  - reflexivity.
  - apply IH, H.
Qed.

Lemma map_zeroed_set_at (l : list Order.t) (i : nat) (o : Order.t)
    (q t : num) :
  nth_error l i = Some o ->
  map (fun o => Order.with_allocation o zero zero)
    (set_at i (Order.with_allocation o q t) l)
  = map (fun o => Order.with_allocation o zero zero) l.
Proof.
  revert i. induction l as [|z zs IH]; intros [|i]; simpl; intro H;
    try discriminate.
  - injection H as ->. reflexivity.
  - rewrite (IH i H). reflexivity.
Qed.

(** X1.  Resetting twice is resetting once: the second [resetAllocations]
    changes neither the allocation state nor the message list. *)
Theorem resetAllocations_idempotent (app : App) :
  state (resetAllocations (resetAllocations app))
  = state (resetAllocations app)
  /\ errors (resetAllocations (resetAllocations app))
     = errors (resetAllocations app).
Proof.
  unfold resetAllocations. simpl. rewrite map_map. split; reflexivity.
Qed.

(** X2.  A reset forgets a manual update: resetting after
    [updateAllocation] leaves the state that resetting at once would have
    left, whatever the order and the quantity. *)
Theorem resetAllocations_after_update (app : App) (orderId : string)
    (newQty : num) :
  state (resetAllocations (updateAllocation app orderId newQty))
  = state (resetAllocations app).
Proof.
  destruct (update_target (state app) orderId) as [[o c]|] eqn:E.
  - destruct (updateAllocation_found app orderId newQty o c E)
      as (i & _ & Hn & _ & ->).
    cbv zeta. unfold resetAllocations. simpl.
    rewrite (map_zeroed_set_at _ _ _ _ _ Hn). reflexivity.
  - rewrite updateAllocation_not_found by exact E. reflexivity.
Qed.

(** X3.  Order creation and reset commute: adding an order and then
    resetting gives the same component, version counter included, as
    resetting and then adding the order. *)
Theorem resetAllocations_addNewOrder_commute (app : App) :
  resetAllocations (addNewOrder app) = addNewOrder (resetAllocations app).
Proof.
  unfold resetAllocations, addNewOrder. simpl.
  rewrite map_app, length_map. reflexivity.
Qed.

(** X4.  A reset does not restore the sequence the orders had before an
    automatic pass: after [runAutoAssignment] it leaves the priority-sorted
    orders, each with quantity and total zero. *)
Theorem resetAllocations_after_auto (app : App) :
  orders (state (resetAllocations (runAutoAssignment app)))
  = map (fun o => Order.with_allocation o zero zero)
      (sort (compareOrders (customers (state app))) (orders (state app))).
Proof.
  unfold resetAllocations. cbn [state orders].
  rewrite orders_runAutoAssignment.
  pose proof (allocate_same_request (customers (state app))
                (sort (compareOrders (customers (state app)))
                   (orders (state app)))
                (totalStock (state app))) as H.
  induction H as [|o o' os os' Ho _ IH]; simpl.
  - reflexivity.
  - rewrite IH. f_equal.
    destruct Ho as (H1 & H2 & H3 & H4 & H5 & H6).
    destruct o, o'; simpl in *. subst. reflexivity.
Qed.

(** X5.  The last manual update of an order wins: two
    [updateAllocation]s of the same order leave the state and the messages
    of the second one alone, so the quantity given does not depend on the
    quantity the order had. *)
Theorem updateAllocation_last_wins (app : App) (orderId : string)
    (q1 q2 : num) :
  state (updateAllocation (updateAllocation app orderId q1) orderId q2)
  = state (updateAllocation app orderId q2)
  /\ errors (updateAllocation (updateAllocation app orderId q1) orderId q2)
     = errors (updateAllocation app orderId q2).
Proof.
  destruct (update_target (state app) orderId) as [[o c]|] eqn:E.
  - destruct (updateAllocation_found app orderId q1 o c E)
      as (i & Hi & Hn & Hid & E1).
    destruct (updateAllocation_found app orderId q2 o c E)
      as (i' & Hi' & _ & _ & E2).
    assert (i' = i) by congruence. subst i'.
    set (app1 := updateAllocation app orderId q1) in *.
    set (o1 := Order.with_allocation o
                 (constrainedQty (state app) c o orderId q1)
                 (mul (constrainedQty (state app) c o orderId q1)
                    (Order.pricePerUnit o))).
    assert (Hs1 : state app1
                  = {| totalStock := totalStock (state app);
                       remainingStock :=
                         sub (totalStock (state app))
                           (allocatedTotal (set_at i o1 (orders (state app))));
                       orders := set_at i o1 (orders (state app));
                       customers := customers (state app);
                       products := products (state app) |}).
    { rewrite E1. reflexivity. }
    assert (Et : update_target (state app1) orderId = Some (o1, c)).
    { unfold update_target, find_order. rewrite Hs1. cbn [orders customers].
      rewrite (find_set_at _ _ _ o1 Hi Hid).
      unfold update_target in E.
      destruct (find_order (state app) orderId) as [o0|]; [|discriminate].
      destruct (find_customer (customers (state app)) (Order.customerId o0))
        eqn:Ec; [|discriminate].
      injection E as -> ->. cbn [o1 Order.with_allocation Order.customerId].
      rewrite Ec. reflexivity. }
    destruct (updateAllocation_found app1 orderId q2 o1 c Et)
      as (j & Hj & _ & _ & E3).
    assert (j = i).
    { rewrite Hs1 in Hj. cbn [orders] in Hj.
      rewrite (findIndex_set_at _ _ _ o1 Hi Hid) in Hj. congruence. }
    subst j.
    assert (Hc : constrainedQty (state app1) c o1 orderId q2
                 = constrainedQty (state app) c o orderId q2).
    { unfold constrainedQty, maxAffordableQty, maxAvailableQty.
      rewrite !currentAllocatedTotal_others, Hs1. cbn [orders totalStock].
      unfold otherOrders.
      rewrite (filter_set_at (fun x => String.eqb (Order.id x) orderId)
                 _ _ o1 Hi Hid).
      reflexivity. }
    assert (Ha : maxAvailableQty (state app1) orderId
                 = maxAvailableQty (state app) orderId).
    { unfold maxAvailableQty.
      rewrite !currentAllocatedTotal_others, Hs1. cbn [orders totalStock].
      unfold otherOrders.
      rewrite (filter_set_at (fun x => String.eqb (Order.id x) orderId)
                 _ _ o1 Hi Hid).
      reflexivity. }
    rewrite E3, E2. cbv zeta. cbn [state errors]. rewrite Hc, Ha, Hs1.
    cbn [orders totalStock customers products].
    rewrite set_at_twice. split; reflexivity.
  - rewrite (updateAllocation_not_found app orderId q1 E). split; reflexivity.
Qed.

(* ================================================================== *)
(** ** The automatic pass starts from scratch *)

Section CarriedOver.
Variable cs : list Customer.t.

Lemma same_request_eq (o o' : Order.t) (q t : num) :
  same_request o o' ->
  Order.with_allocation o' q t = Order.with_allocation o q t.
Proof.
  intros (H1 & H2 & H3 & H4 & H5 & H6).
  destruct o, o'; simpl in *. subst. reflexivity.
Qed.

Lemma carried_over_refl (o : Order.t) : carried_over cs o o.
Proof. split; [apply same_request_refl | reflexivity]. Qed.

Lemma priority_same_request (o o' : Order.t) :
  same_request o o' -> priority cs o' = priority cs o.
Proof. intros (_ & H & _). unfold priority. rewrite H. reflexivity. Qed.

Lemma allocateOrder_carried (o o' : Order.t) (r : num) :
  carried_over cs o o' -> allocateOrder cs o' r = allocateOrder cs o r.
Proof.
  intros [Hs Hn]. pose proof Hs as (H1 & H2 & H3 & H4 & H5 & H6).
  unfold allocateOrder. rewrite <- H2.
  destruct (find_customer cs (Order.customerId o)) as [c|] eqn:Ec.
  - rewrite <- H1, <- H4, <- H6.
    rewrite (same_request_eq o o' _ _ Hs). reflexivity.
  - rewrite (Hn eq_refl). reflexivity.
Qed.

Lemma allocate_carried (l l' : list Order.t) (r : num) :
  Forall2 (carried_over cs) l l' -> allocate cs l' r = allocate cs l r.
Proof.
  intro H. revert r. induction H as [|o o' l l' Ho _ IH]; intro r; simpl.
  - reflexivity.
  - rewrite (allocateOrder_carried o o' r Ho).
    destruct (allocateOrder cs o r) as [[o1 r1] e1].
    rewrite IH. reflexivity.
Qed.

Lemma allocateOrder_carries (o : Order.t) (r : num) :
  carried_over cs o (fst (fst (allocateOrder cs o r))).
Proof.
  split; [apply allocateOrder_same_request|].
  unfold allocateOrder. intros ->. reflexivity.
Qed.

Lemma allocate_carries (l : list Order.t) (r : num) :
  Forall2 (carried_over cs) l (fst (fst (allocate cs l r))).
Proof.
  revert r. induction l as [|o l IH]; intro r; simpl.
  - constructor.
  - pose proof (allocateOrder_carries o r) as Ho.
    destruct (allocateOrder cs o r) as [[o1 r1] e1].
    specialize (IH r1).
    destruct (allocate cs l r1) as [[l1 r2] e2]. simpl in *.
    constructor; assumption.
Qed.

Lemma insert_carried (x x' : Order.t) (l l' : list Order.t) :
  carried_over cs x x' -> Forall2 (carried_over cs) l l' ->
  Forall2 (carried_over cs) (insert (compareOrders cs) x l)
    (insert (compareOrders cs) x' l').
Proof.
  intros Hx H. induction H as [|y y' l l' Hy Hl IH].
  - simpl. constructor; [exact Hx | constructor].
  - rewrite (insert_priority cs x (y :: l)),
            (insert_priority cs x' (y' :: l')).
    rewrite (priority_same_request x x' (proj1 Hx)),
            (priority_same_request y y' (proj1 Hy)).
    destruct (ltb (priority cs x) (priority cs y)).
    + constructor; assumption.
    + constructor; [exact Hx|]. constructor; assumption.
Qed.

Lemma sort_carried (l l' : list Order.t) :
  Forall2 (carried_over cs) l l' ->
  Forall2 (carried_over cs) (sort (compareOrders cs) l)
    (sort (compareOrders cs) l').
Proof.
  induction 1 as [|x x' l l' Hx _ IH]; simpl.
  - constructor.
  - apply insert_carried; assumption.
Qed.

(** Sorting what is sorted changes nothing. *)
Lemma sort_sorted_id (l : list Order.t) :
  StronglySorted (served_before cs) l -> sort (compareOrders cs) l = l.
Proof.
  intro Hs. symmetry.
  apply (sorted_stable_eq cs); [exact Hs | apply sort_sorted|].
  intro k. symmetry. apply sort_with_priority.
Qed.

Lemma auto_carried (l l' : list Order.t) (r : num) :
  Forall2 (carried_over cs) l l' ->
  allocate cs (sort (compareOrders cs) l') r
  = allocate cs (sort (compareOrders cs) l) r.
Proof. intro H. apply allocate_carried, sort_carried, H. Qed.
End CarriedOver.

Lemma runAutoAssignment_unfold (app : App) :
  runAutoAssignment app
  = let s := state app in
    let result :=
      allocate (customers s) (sort (compareOrders (customers s)) (orders s))
        (totalStock s) in
    {| state :=
         {| totalStock := totalStock s;
            remainingStock := snd (fst result);
            orders := fst (fst result);
            customers := customers s;
            products := products s |};
       errors := snd result;
       versionKey := versionKey app + 1 |}.
Proof.
  unfold runAutoAssignment. cbv zeta.
  destruct (allocate _ _ _) as [[os r] es]. reflexivity.
Qed.

(** X6.  The automatic pass is idempotent: a second [runAutoAssignment]
    leaves the allocation state and the messages of the first, on every
    state. *)
Theorem runAutoAssignment_idempotent (app : App) :
  state (runAutoAssignment (runAutoAssignment app))
  = state (runAutoAssignment app)
  /\ errors (runAutoAssignment (runAutoAssignment app))
     = errors (runAutoAssignment app).
Proof.
  rewrite (runAutoAssignment_unfold (runAutoAssignment app)).
  rewrite (runAutoAssignment_unfold app). cbv zeta. cbn [state errors
    totalStock remainingStock orders customers products].
  set (cs := customers (state app)).
  set (T := totalStock (state app)).
  set (l := sort (compareOrders cs) (orders (state app))).
  rewrite (auto_carried cs l _ T (allocate_carries cs l T)).
  subst l.
  rewrite (sort_sorted_id cs _ (sort_sorted cs (orders (state app)))).
  split; reflexivity.
Qed.

(** X7.  The automatic pass does not depend on an earlier manual update:
    [runAutoAssignment] after [updateAllocation] leaves the state and the
    messages it leaves without it. *)
Theorem runAutoAssignment_after_update (app : App) (orderId : string)
    (newQty : num) :
  state (runAutoAssignment (updateAllocation app orderId newQty))
  = state (runAutoAssignment app)
  /\ errors (runAutoAssignment (updateAllocation app orderId newQty))
     = errors (runAutoAssignment app).
Proof.
  destruct (update_target (state app) orderId) as [[o c]|] eqn:E.
  - destruct (updateAllocation_found app orderId newQty o c E)
      as (i & _ & Hn & _ & E1).
    assert (Hc : find_customer (customers (state app)) (Order.customerId o)
                 = Some c).
    { unfold update_target in E.
      destruct (find_order (state app) orderId) as [o0|]; [|discriminate].
      destruct (find_customer (customers (state app)) (Order.customerId o0))
        eqn:Ec; [|discriminate].
      injection E as -> ->. exact Ec. }
    rewrite (runAutoAssignment_unfold (updateAllocation app orderId newQty)).
    rewrite (runAutoAssignment_unfold app), E1. cbv zeta.
    cbn [state errors totalStock remainingStock orders customers products].
    set (o1 := Order.with_allocation o _ _).
    assert (H : Forall2 (carried_over (customers (state app)))
                  (orders (state app)) (set_at i o1 (orders (state app)))).
    { clear E1. revert i Hn.
      induction (orders (state app)) as [|x xs IH]; intros [|i] Hn;
        simpl in *; try discriminate.
      - injection Hn as ->. constructor.
        + split; [repeat split|]. intro Hnone. congruence.
        + clear IH. induction xs; constructor;
            auto using carried_over_refl.
      - constructor; [apply carried_over_refl | apply IH, Hn]. }
    rewrite (auto_carried _ _ _ (totalStock (state app)) H).
    split; reflexivity.
  - rewrite updateAllocation_not_found by exact E. split; reflexivity.
Qed.

(** X8.  When every order has a customer, the automatic pass does not
    depend on the allocations it finds: [runAutoAssignment] after
    [resetAllocations] leaves the state and the messages it leaves
    without it. *)
Theorem runAutoAssignment_after_reset (app : App) :
  Forall (fun o => find_customer (customers (state app)) (Order.customerId o)
                   <> None) (orders (state app)) ->
  state (runAutoAssignment (resetAllocations app))
  = state (runAutoAssignment app)
  /\ errors (runAutoAssignment (resetAllocations app))
     = errors (runAutoAssignment app).
Proof.
  intro Hall.
  rewrite (runAutoAssignment_unfold (resetAllocations app)).
  rewrite (runAutoAssignment_unfold app). cbv zeta.
  unfold resetAllocations.
  cbn [state errors totalStock remainingStock orders customers products].
  assert (H : Forall2 (carried_over (customers (state app)))
                (orders (state app))
                (map (fun o => Order.with_allocation o zero zero)
                   (orders (state app)))).
  { induction Hall as [|x xs Hx _ IH]; simpl; constructor; [|exact IH].
    split; [repeat split|]. intro Hnone. contradiction. }
  rewrite (auto_carried _ _ _ (totalStock (state app)) H).
  split; reflexivity.
Qed.

Lemma exampleState_customers_found :
  Forall (fun o => find_customer (customers (state exampleApp))
                     (Order.customerId o) <> None)
    (orders (state exampleApp)).
Proof. repeat constructor; discriminate. Defined.

Lemma runAutoAssignment_after_reset_witness :
  Forall (fun o => find_customer (customers (state exampleApp))
                     (Order.customerId o) <> None)
    (orders (state exampleApp))
  /\ state (runAutoAssignment (resetAllocations exampleApp))
     = state (runAutoAssignment exampleApp).
Proof.
  split; [exact exampleState_customers_found|].
  exact (proj1 (runAutoAssignment_after_reset exampleApp
                  exampleState_customers_found)).
Defined.

(* ================================================================== *)
(** ** What a manual update gives *)

Lemma eqb_not_ltb (a b : num) : eqb a b = true -> ltb a b = false.
Proof. destruct a, b; intro; JsFacts.num_crush. Qed.

Lemma leb_eqb_l (a b c : num) :
  eqb a b = true -> leb b c = true -> leb a c = true.
Proof. intros H1 H2. eapply JsFacts.leb_trans; [apply JsFacts.eqb_leb|]; eauto. Qed.

(** The least argument, when it is known. *)
Lemma Math_min_least (xs : list num) (x : num) :
  no_NaN xs -> In x xs -> (forall y, In y xs -> leb x y = true) ->
  eqb (Math_min xs) x = true.
Proof.
  intros Hn Hin Hle.
  pose proof (JsFacts.Math_min_leb xs x Hn Hin) as H.
  rewrite JsFacts.Math_min_no_NaN in * by exact Hn.
  destruct (JsFacts.fold_lower_In xs PInf) as [E|Hm].
  - rewrite E in *. destruct x; try discriminate. reflexivity.
  - apply JsFacts.leb_antisym; [exact H | apply Hle, Hm].
Qed.

Lemma Math_max_zero_cases (d : num) :
  isNaN d = false ->
  leb zero (Math_max [zero; d]) = true
  /\ leb d (Math_max [zero; d]) = true
  /\ (leb zero d = true -> eqb (Math_max [zero; d]) d = true)
  /\ (leb d zero = true -> Math_max [zero; d] = zero).
Proof.
  intro Hd. rewrite JsFacts.Math_max_zero, Hd.
  destruct d as [q| | | |]; try discriminate; simpl;
    try (repeat split; intros; try reflexivity; discriminate).
  unfold gtb, ltb, leb, eqb, zero.
  destruct (Qcompare_spec 0 q) as [E|E|E]; repeat split; intros;
    JsFacts.num_crush.
Qed.

(** A request whose raised value is within the three bounds is given as
    raised, and no message is left. *)
Lemma constrainedQty_honoured (s : AllocationState) (customer : Customer.t)
    (order : Order.t) (orderId : string) (d : num) :
  isNaN d = false ->
  leb (Math_max [zero; d]) (Order.requestedQty order) = true ->
  leb (Math_max [zero; d]) (maxAffordableQty customer order) = true ->
  leb (Math_max [zero; d]) (maxAvailableQty s orderId) = true ->
  eqb (constrainedQty s customer order orderId d) (Math_max [zero; d]) = true
  /\ updateErrors orderId (constrainedQty s customer order orderId d) d
       (maxAffordableQty customer order) (maxAvailableQty s orderId) = [].
Proof.
  intros Hd H1 H2 H3.
  destruct (Math_max_zero_cases d Hd) as (Hz & Hdm & _).
  assert (E : eqb (constrainedQty s customer order orderId d)
                (Math_max [zero; d]) = true).
  { unfold constrainedQty. apply Math_min_least.
    - unfold no_NaN. simpl.
      rewrite (JsFacts.leb_not_NaN_r _ _ Hz), (JsFacts.leb_not_NaN_r _ _ H1),
        (JsFacts.leb_not_NaN_r _ _ H2), (JsFacts.leb_not_NaN_r _ _ H3).
      reflexivity.
    - left. reflexivity.
    - intros y [<-|[<-|[<-|[<-|[]]]]]; try assumption.
      apply JsFacts.leb_refl, (JsFacts.leb_not_NaN_r _ _ Hz). }
  split; [exact E|].
  unfold updateErrors.
  assert (Hnl : ltb (constrainedQty s customer order orderId d) d = false).
  { apply JsFacts.leb_gtb. eapply JsFacts.leb_trans; [exact Hdm|].
    apply JsFacts.eqb_leb. rewrite JsFacts.eqb_sym. exact E. }
  rewrite Hnl. reflexivity.
Qed.

(** What [updateAllocation] leaves of its target and in the messages. *)
Lemma updateAllocation_target (app : App) (orderId : string) (d : num)
    (order : Order.t) (customer : Customer.t) :
  find_order (state app) orderId = Some order ->
  find_customer (customers (state app)) (Order.customerId order)
    = Some customer ->
  let c := constrainedQty (state app) customer order orderId d in
  find_order (state (updateAllocation app orderId d)) orderId
  = Some (Order.with_allocation order c (mul c (Order.pricePerUnit order)))
  /\ errors (updateAllocation app orderId d)
     = updateErrors orderId c d (maxAffordableQty customer order)
         (maxAvailableQty (state app) orderId).
Proof.
  intros Ho Hc c.
  assert (Ht : update_target (state app) orderId = Some (order, customer)).
  { unfold update_target. rewrite Ho, Hc. reflexivity. }
  destruct (updateAllocation_found app orderId d order customer Ht)
    as (i & Hi & _ & Hid & ->).
  cbv zeta. unfold find_order. cbn [state orders errors]. split.
  - apply find_set_at; [exact Hi | exact Hid].
  - reflexivity.
Qed.

(** X9.  A manual update never gives more than any of its three bounds:
    unless it is [NaN], the quantity it leaves is at most [requestedQty],
    at most [floor(creditRemaining / pricePerUnit)] and at most the stock
    the other orders leave. *)
Theorem updateAllocation_bounded (app : App) (orderId : string) (d : num)
    (order : Order.t) (customer : Customer.t) :
  find_order (state app) orderId = Some order ->
  find_customer (customers (state app)) (Order.customerId order)
    = Some customer ->
  exists order',
    find_order (state (updateAllocation app orderId d)) orderId = Some order'
    /\ (isNaN (Order.allocatedQty order') = false ->
        leb (Order.allocatedQty order') (Order.requestedQty order) = true
        /\ leb (Order.allocatedQty order')
              (floor (div (Customer.creditRemaining customer)
                          (Order.pricePerUnit order))) = true
        /\ leb (Order.allocatedQty order')
              (sub (totalStock (state app))
                   (allocatedTotal
                      (otherOrders (orders (state app)) orderId))) = true).
Proof.
  intros Ho Hc.
  destruct (updateAllocation_target app orderId d order customer Ho Hc)
    as [Hf _].
  eexists. split; [exact Hf|].
  cbn [Order.with_allocation Order.allocatedQty].
  unfold constrainedQty, maxAffordableQty, maxAvailableQty.
  rewrite currentAllocatedTotal_others. intro Hn.
  rewrite JsFacts.Math_min_isNaN in Hn.
  split; [|split].
  - apply JsFacts.Math_min_leb; [exact Hn|].
    right. left. reflexivity.
  - apply JsFacts.Math_min_leb; [exact Hn|].
    right. right. left. reflexivity.
  - apply JsFacts.Math_min_leb; [exact Hn|].
    right. right. right. left. reflexivity.
Qed.

Lemma updateAllocation_bounded_witness :
  find_order (state initialApp) "ORDER-001" = Some initialOrder
  /\ find_customer (customers (state initialApp))
       (Order.customerId initialOrder) = Some initialCustomer
  /\ exists order',
       find_order (state (updateAllocation initialApp "ORDER-001" (Fin 7)))
         "ORDER-001" = Some order'
       /\ (isNaN (Order.allocatedQty order') = false ->
           leb (Order.allocatedQty order') (Order.requestedQty initialOrder)
           = true).
Proof.
  split; [reflexivity|]. split; [reflexivity|].
  destruct (updateAllocation_bounded initialApp "ORDER-001" (Fin 7)
              initialOrder initialCustomer eq_refl eq_refl)
    as (order' & Hf & Hb).
  exists order'. split; [exact Hf|]. intro Hn. apply (Hb Hn).
Defined.

(** X10.  A request within the bounds is honoured as it is: when the
    desired quantity is not negative and at most [requestedQty], the
    affordable quantity and the available stock, the target is left with a
    quantity equal to it and no message is left. *)
Theorem updateAllocation_honours (app : App) (orderId : string) (d : num)
    (order : Order.t) (customer : Customer.t) :
  find_order (state app) orderId = Some order ->
  find_customer (customers (state app)) (Order.customerId order)
    = Some customer ->
  leb zero d = true ->
  leb d (Order.requestedQty order) = true ->
  leb d (floor (div (Customer.creditRemaining customer)
                    (Order.pricePerUnit order))) = true ->
  leb d (sub (totalStock (state app))
             (allocatedTotal (otherOrders (orders (state app)) orderId)))
  = true ->
  (exists order',
     find_order (state (updateAllocation app orderId d)) orderId = Some order'
     /\ eqb (Order.allocatedQty order') d = true)
  /\ errors (updateAllocation app orderId d) = [].
Proof.
  intros Ho Hc H0 H1 H2 H3.
  destruct (updateAllocation_target app orderId d order customer Ho Hc)
    as [Hf He].
  pose proof (JsFacts.leb_not_NaN_r _ _ H0) as Hd.
  destruct (Math_max_zero_cases d Hd) as (_ & _ & Hm & _).
  specialize (Hm H0).
  destruct (constrainedQty_honoured (state app) customer order orderId d Hd)
    as [E Hnil].
  - eapply leb_eqb_l; eauto.
  - eapply leb_eqb_l; eauto.
  - unfold maxAvailableQty. rewrite currentAllocatedTotal_others.
    eapply leb_eqb_l; eauto.
  - split.
    + eexists. split; [exact Hf|].
      cbn [Order.with_allocation Order.allocatedQty].
      eapply JsFacts.eqb_trans; eauto.
    + rewrite He. exact Hnil.
Qed.

Lemma updateAllocation_honours_witness :
  find_order (state initialApp) "ORDER-001" = Some initialOrder
  /\ find_customer (customers (state initialApp))
       (Order.customerId initialOrder) = Some initialCustomer
  /\ leb zero (Fin 3) = true
  /\ leb (Fin 3) (Order.requestedQty initialOrder) = true
  /\ errors (updateAllocation initialApp "ORDER-001" (Fin 3)) = [].
Proof.
  split; [reflexivity|]. split; [reflexivity|].
  split; [reflexivity|]. split; [reflexivity|].
  apply (proj2 (updateAllocation_honours initialApp "ORDER-001" (Fin 3)
                  initialOrder initialCustomer eq_refl eq_refl eq_refl
                  eq_refl eq_refl eq_refl)).
Defined.

(** X11.  A request that is zero or negative empties the order without a
    word: when no bound is negative, the target is left with quantity zero
    and no message is left. *)
Theorem updateAllocation_nonpositive (app : App) (orderId : string) (d : num)
    (order : Order.t) (customer : Customer.t) :
  find_order (state app) orderId = Some order ->
  find_customer (customers (state app)) (Order.customerId order)
    = Some customer ->
  leb d zero = true ->
  leb zero (Order.requestedQty order) = true ->
  leb zero (floor (div (Customer.creditRemaining customer)
                       (Order.pricePerUnit order))) = true ->
  leb zero (sub (totalStock (state app))
                (allocatedTotal (otherOrders (orders (state app)) orderId)))
  = true ->
  (exists order',
     find_order (state (updateAllocation app orderId d)) orderId = Some order'
     /\ eqb (Order.allocatedQty order') zero = true)
  /\ errors (updateAllocation app orderId d) = [].
Proof.
  intros Ho Hc H0 H1 H2 H3.
  destruct (updateAllocation_target app orderId d order customer Ho Hc)
    as [Hf He].
  pose proof (JsFacts.leb_not_NaN_l _ _ H0) as Hd.
  destruct (Math_max_zero_cases d Hd) as (_ & _ & _ & Hm).
  specialize (Hm H0).
  destruct (constrainedQty_honoured (state app) customer order orderId d Hd)
    as [E Hnil].
  - rewrite Hm. exact H1.
  - rewrite Hm. exact H2.
  - rewrite Hm. unfold maxAvailableQty.
    rewrite currentAllocatedTotal_others. exact H3.
  - split.
    + eexists. split; [exact Hf|].
      cbn [Order.with_allocation Order.allocatedQty].
      rewrite Hm in E. exact E.
    + rewrite He. exact Hnil.
Qed.

Lemma updateAllocation_nonpositive_witness :
  find_order (state initialApp) "ORDER-001" = Some initialOrder
  /\ find_customer (customers (state initialApp))
       (Order.customerId initialOrder) = Some initialCustomer
  /\ leb (Fin (-2)) zero = true
  /\ errors (updateAllocation initialApp "ORDER-001" (Fin (-2))) = [].
Proof.
  split; [reflexivity|]. split; [reflexivity|]. split; [reflexivity|].
  apply (proj2 (updateAllocation_nonpositive initialApp "ORDER-001"
                  (Fin (-2)) initialOrder initialCustomer eq_refl eq_refl
                  eq_refl eq_refl eq_refl eq_refl)).
Defined.

(* ================================================================== *)
(** ** The ids of created orders *)

Lemma decodeDigits_zero (s : string) :
  decodeDigits (String "0" s) = decodeDigits s.
Proof.
  unfold decodeDigits. simpl.
  destruct (NilEmpty.uint_of_string s); reflexivity.
Qed.

Lemma decodeDigits_padStart (n : nat) (s : string) :
  decodeDigits (padStart n "0" s) = decodeDigits s.
Proof.
  unfold padStart. induction (n - String.length s)%nat as [|k IH]; simpl.
  - reflexivity.
  - rewrite decodeDigits_zero. exact IH.
Qed.

Lemma decodeDigits_String_of_nat (n : nat) :
  decodeDigits (String_of_nat n) = Some n.
Proof.
  unfold decodeDigits, String_of_nat.
  rewrite NilEmpty.usu. simpl. rewrite Unsigned.of_to. reflexivity.
Qed.

Lemma string_length_append (a b : string) :
  String.length (a ++ b)%string = (String.length a + String.length b)%nat.
Proof. induction a as [|c a IH]; simpl; [|rewrite IH]; reflexivity. Qed.

Lemma repeat_char_length (c : ascii) (n : nat) :
  String.length (repeat_char c n) = n.
Proof. induction n as [|n IH]; simpl; [|rewrite IH]; reflexivity. Qed.

Lemma newOrderId_inj (n m : nat) : newOrderId n = newOrderId m -> n = m.
Proof.
  unfold newOrderId. intro H. apply append_inj_l in H.
  apply (f_equal decodeDigits) in H.
  rewrite !decodeDigits_padStart, !decodeDigits_String_of_nat in H.
  injection H as H. lia.
Qed.

Lemma newOrderId_NoDup (a n : nat) : NoDup (map newOrderId (seq a n)).
Proof.
  revert a. induction n as [|n IH]; intro a; simpl.
  - constructor.
  - constructor; [|apply IH].
    intro Hin. apply in_map_iff in Hin as (k & Hk & Hin).
    apply newOrderId_inj in Hk. apply in_seq in Hin. lia.
Qed.

(** X12.  The id [addNewOrder] builds from an order count is ["ORDER-"]
    followed by at least three decimal digits that read the count plus one,
    and different counts give different ids: the ids built for the counts
    below any [n] are pairwise distinct. *)
Theorem newOrderId_distinct (n : nat) :
  (exists digits,
     newOrderId n = ("ORDER-" ++ digits)%string
     /\ decodeDigits digits = Some (n + 1)%nat
     /\ (3 <= String.length digits)%nat)
  /\ NoDup (map newOrderId (seq 0 n)).
Proof.
  split.
  - exists (padStart 3 "0" (String_of_nat (n + 1))). split; [reflexivity|].
    split.
    + rewrite decodeDigits_padStart. apply decodeDigits_String_of_nat.
    + unfold padStart. rewrite string_length_append, repeat_char_length. lia.
  - apply newOrderId_NoDup.
Qed.

(* ================================================================== *)
(** ** What no event changes *)

Lemma frame_runAutoAssignment (app : App) :
  totalStock (state (runAutoAssignment app)) = totalStock (state app)
  /\ customers (state (runAutoAssignment app)) = customers (state app)
  /\ products (state (runAutoAssignment app)) = products (state app).
Proof. rewrite runAutoAssignment_unfold. repeat split. Qed.

Lemma frame_updateAllocation (app : App) (orderId : string) (q : num) :
  totalStock (state (updateAllocation app orderId q)) = totalStock (state app)
  /\ customers (state (updateAllocation app orderId q))
     = customers (state app)
  /\ products (state (updateAllocation app orderId q)) = products (state app).
Proof.
  destruct (update_target (state app) orderId) as [[o c]|] eqn:E.
  - destruct (updateAllocation_found app orderId q o c E)
      as (i & _ & _ & _ & ->). repeat split.
  - rewrite updateAllocation_not_found by exact E. repeat split.
Qed.

Lemma frame_handle (app : App) (e : event) :
  totalStock (state (handle app e)) = totalStock (state app)
  /\ customers (state (handle app e)) = customers (state app)
  /\ products (state (handle app e)) = products (state app).
Proof.
  destruct e as [| | | |row|row|row parsed|row]; cbn [handle].
  - apply frame_runAutoAssignment.
  - repeat split.
  - repeat split.
  - repeat split.
  - destruct (nth_error _ row) as [o|]; [|repeat split].
    destruct (minusDisabled o); [repeat split|].
    apply frame_updateAllocation.
  - destruct (nth_error _ row) as [o|]; [|repeat split].
    apply frame_updateAllocation.
  - destruct (nth_error _ row) as [o|]; [|repeat split].
    apply frame_updateAllocation.
  - destruct (nth_error _ row) as [o|]; [|repeat split].
    apply frame_updateAllocation.
Qed.

(** X13.  No sequence of events changes the stock to share, the customers
    or the products: in particular no allocation, automatic or manual, ever
    takes anything off a customer's [creditRemaining]. *)
Theorem session_frame (events : list event) (app : App) :
  totalStock (state (session app events)) = totalStock (state app)
  /\ customers (state (session app events)) = customers (state app)
  /\ products (state (session app events)) = products (state app).
Proof.
  unfold session. revert app. induction events as [|e es IH]; intro app.
  - repeat split.
  - simpl. destruct (IH (handle app e)) as (H1 & H2 & H3).
    destruct (frame_handle app e) as (F1 & F2 & F3).
    rewrite H1, H2, H3. auto.
Qed.

(* ================================================================== *)
(** ** The summary cards *)

(** X14.  Where the invariants hold and the stock is a count, so that every
    number involved is a whole number up to [MAX_SAFE_INTEGER] and the two
    subtractions are exact, the figure of the "Allocated" card,
    [totalStock - remainingStock], is the sum of the allocated quantities of
    the orders. *)
Theorem allocatedDisplay_is_total (s : AllocationState) :
  invariants s = true ->
  count (totalStock s) = true ->
  eqb (allocatedDisplay s) (allocatedTotal (orders s)) = true.
Proof.
  unfold allocatedDisplay. intros H Hc.
  destruct (invariants_inv s H) as (_ & _ & Hfin & Hle & Hr).
  apply count_Fin in Hc as (t & Et & _).
  destruct (allocatedTotal_finite _ Hfin) as (a & Ea & _).
  rewrite Et, Ea in *. apply JsFacts.leb_Fin in Hle.
  destruct (remainingStock s) as [r| | | |]; try discriminate.
  - apply JsFacts.eqb_Fin in Hr. apply JsFacts.eqb_Fin.
    cbn [sub] in *. lra.
  - cbn [sub eqb] in Hr. apply Qeq_bool_iff in Hr.
    cbn [sub neg add]. apply JsFacts.eqb_Fin. lra.
Qed.

Lemma allocatedDisplay_is_total_witness :
  invariants (state (runAutoAssignment exampleApp)) = true
  /\ count (totalStock (state (runAutoAssignment exampleApp))) = true
  /\ eqb (allocatedDisplay (state (runAutoAssignment exampleApp)))
         (allocatedTotal (orders (state (runAutoAssignment exampleApp))))
     = true.
Proof.
  split; [reflexivity|]. split; [reflexivity|].
  apply allocatedDisplay_is_total; reflexivity.
Defined.

(* ================================================================== *)
(** ** Sessions of the operator *)

Lemma traced_runAutoAssignment (app : App) (o' : Order.t) :
  In o' (orders (state (runAutoAssignment app))) ->
  exists o, In o (orders (state app)) /\ same_request o o'.
Proof.
  intro Hin. rewrite orders_runAutoAssignment in Hin.
  destruct (Forall2_In_r _ _ _ _ (allocate_same_request _ _ _) Hin)
    as (o & Ho & Hr).
  exists o. split; [|exact Hr].
  apply (Permutation_in _
           (Permutation_sym (sort_Permutation (customers (state app)) _))),
    Ho.
Qed.

Lemma traced_updateAllocation (app : App) (orderId : string) (q : num)
    (o' : Order.t) :
  In o' (orders (state (updateAllocation app orderId q))) ->
  exists o, In o (orders (state app)) /\ same_request o o'.
Proof.
  destruct (update_target (state app) orderId) as [[o c]|] eqn:E.
  - destruct (updateAllocation_found app orderId q o c E)
      as (i & _ & Hn & _ & ->).
    cbv zeta. cbn [state orders]. intro Hin.
    apply In_set_at in Hin as [->|Hin].
    + exists o. split; [eapply nth_error_In; exact Hn | repeat split].
    + exists o'. split; [exact Hin | apply same_request_refl].
  - rewrite updateAllocation_not_found by exact E.
    intro Hin. exists o'. split; [exact Hin | apply same_request_refl].
Qed.

Lemma suggestions_traced (os os' : list Order.t) :
  (forall o', In o' os' -> exists o, In o os /\ same_request o o') ->
  Forall (fun o => whole (Order.suggestion o) = true) os ->
  Forall (fun o => whole (Order.suggestion o) = true) os'.
Proof.
  intros Ht H. apply Forall_forall. intros o' Hin.
  destruct (Ht o' Hin) as (o & Ho & _ & _ & _ & _ & Hs & _).
  rewrite <- Hs. rewrite Forall_forall in H. apply H, Ho.
Qed.

Lemma sequential_ids_unique (s : AllocationState) :
  sequential_ids s -> unique_ids s.
Proof.
  unfold sequential_ids, unique_ids. intro H.
  apply (Permutation_NoDup (Permutation_sym H)).
  apply newOrderId_NoDup.
Qed.

Lemma sequential_ids_fresh (s : AllocationState) :
  sequential_ids s ->
  ~ In (newOrderId (List.length (orders s))) (ids s).
Proof.
  unfold sequential_ids. intros H Hin.
  apply (Permutation_in _ H) in Hin.
  apply in_map_iff in Hin as (k & Hk & Hin).
  apply newOrderId_inj in Hk. apply in_seq in Hin. lia.
Qed.

Lemma sequential_ids_transfer (s s' : AllocationState) :
  Permutation (ids s) (ids s') -> sequential_ids s -> sequential_ids s'.
Proof.
  unfold sequential_ids. intros Hp H.
  assert (Hl : List.length (orders s') = List.length (orders s)).
  { apply Permutation_length in Hp. unfold ids in Hp.
    rewrite !length_map in Hp. symmetry. exact Hp. }
  rewrite Hl. eapply Permutation_trans; [apply Permutation_sym, Hp | exact H].
Qed.

Lemma session_ready_sound (s : AllocationState) :
  session_ready s ->
  well_formed s = true /\ unique_ids s /\ invariants s = true.
Proof.
  intros (Hw & Hi & Hs & _). auto using sequential_ids_unique.
Qed.

Lemma session_ready_update (app : App) (orderId : string) (q : num) :
  session_ready (state app) -> whole q = true ->
  session_ready (state (updateAllocation app orderId q)).
Proof.
  intros Hr Hq. destruct (session_ready_sound _ Hr) as (Hw & Hu & Hi).
  destruct Hr as (_ & _ & Hs & Hc & Hsug).
  destruct (sound_step app (Update orderId q) Hw Hu Hi Hq) as (Hw' & _ & Hi').
  cbn [apply_operation] in *.
  destruct (frame_updateAllocation app orderId q) as (_ & Ec & _).
  repeat split; try assumption.
  - apply (sequential_ids_transfer (state app)); [|exact Hs].
    rewrite ids_updateAllocation. apply Permutation_refl.
  - rewrite Ec. exact Hc.
  - apply (suggestions_traced (orders (state app))); [|exact Hsug].
    apply traced_updateAllocation.
Qed.

Lemma session_ready_auto (app : App) :
  session_ready (state app) -> session_ready (state (runAutoAssignment app)).
Proof.
  intros Hr. destruct (session_ready_sound _ Hr) as (Hw & Hu & Hi).
  destruct Hr as (_ & _ & Hs & Hc & Hsug).
  destruct (sound_step app Auto Hw Hu Hi I) as (Hw' & _ & Hi').
  cbn [apply_operation] in *.
  destruct (frame_runAutoAssignment app) as (_ & Ec & _).
  repeat split; try assumption.
  - apply (sequential_ids_transfer (state app)); [|exact Hs].
    unfold ids. rewrite orders_runAutoAssignment.
    rewrite (same_request_ids _ _ (allocate_same_request _ _ _)).
    apply Permutation_map, sort_Permutation.
  - rewrite Ec. exact Hc.
  - apply (suggestions_traced (orders (state app))); [|exact Hsug].
    apply traced_runAutoAssignment.
Qed.

Lemma session_ready_reset (app : App) :
  session_ready (state app) -> session_ready (state (resetAllocations app)).
Proof.
  intros Hr. destruct (session_ready_sound _ Hr) as (Hw & Hu & Hi).
  destruct Hr as (_ & _ & Hs & Hc & Hsug).
  destruct (sound_step app Reset Hw Hu Hi I) as (Hw' & _ & Hi').
  cbn [apply_operation] in *.
  repeat split; try assumption.
  - apply (sequential_ids_transfer (state app)); [|exact Hs].
    rewrite ids_resetAllocations. apply Permutation_refl.
  - unfold resetAllocations. cbn [state orders].
    apply Forall_map. exact Hsug.
Qed.

Lemma session_ready_add (app : App) :
  session_ready (state app) -> session_ready (state (addNewOrder app)).
Proof.
  intros Hr. destruct (session_ready_sound _ Hr) as (Hw & Hu & Hi).
  destruct Hr as (_ & _ & Hs & Hc & Hsug).
  destruct (sound_step app Add Hw Hu Hi
              (conj Hc (sequential_ids_fresh _ Hs))) as (Hw' & _ & Hi').
  cbn [apply_operation] in *.
  repeat split; try assumption.
  - unfold sequential_ids, ids, addNewOrder in *. cbn [state orders].
    rewrite map_app, length_app. cbn [List.length map].
    rewrite seq_app, map_app. cbn [seq map]. rewrite Nat.add_0_l.
    apply Permutation_app; [exact Hs | apply Permutation_refl].
  - unfold addNewOrder. cbn [state orders].
    apply Forall_app. split; [exact Hsug|]. repeat constructor.
Qed.

(** The quantities the rows ask for are whole numbers. *)
Lemma inputQuantity_whole (parsed : num) :
  whole parsed || isNaN parsed = true ->
  whole (inputQuantity parsed) = true.
Proof.
  unfold inputQuantity, or_else. intro H.
  destruct (truthy parsed) eqn:Et; [|reflexivity].
  destruct parsed; try discriminate; try reflexivity.
  rewrite orb_false_r in H. exact H.
Qed.

Lemma row_allocated_count (s : AllocationState) (row : nat) (o : Order.t) :
  session_ready s -> nth_error (orders s) row = Some o ->
  exists a, Order.allocatedQty o = Fin a /\ whole (Fin a) = true.
Proof.
  intros (_ & Hi & _) Hn. apply nth_error_In in Hn.
  destruct (invariants_inv _ Hi) as (_ & Hc & _).
  rewrite Forall_forall in Hc.
  destruct (proj1 (count_Fin _) (Hc o Hn)) as (a & Ea & _ & _ & Hw).
  exists a. auto.
Qed.

Lemma session_ready_handle (app : App) (e : event) :
  session_ready (state app) -> parsed_by_parseInt e = true ->
  session_ready (state (handle app e)).
Proof.
  intros Hr He.
  destruct e as [| | | |row|row|row parsed|row]; cbn [handle].
  - apply session_ready_auto, Hr.
  - apply session_ready_reset, Hr.
  - exact Hr.
  - apply session_ready_add, Hr.
  - destruct (nth_error _ row) as [o|] eqn:En; [|exact Hr].
    destruct (minusDisabled o); [exact Hr|].
    destruct (row_allocated_count _ _ _ Hr En) as (a & Ea & Hw).
    apply session_ready_update; [exact Hr|]. rewrite Ea.
    cbn [sub]. apply whole_sub; [exact Hw | reflexivity].
  - destruct (nth_error _ row) as [o|] eqn:En; [|exact Hr].
    destruct (row_allocated_count _ _ _ Hr En) as (a & Ea & Hw).
    apply session_ready_update; [exact Hr|]. rewrite Ea.
    cbn [add]. apply whole_add; [exact Hw | reflexivity].
  - destruct (nth_error _ row) as [o|] eqn:En; [|exact Hr].
    apply session_ready_update; [exact Hr|].
    apply inputQuantity_whole, He.
  - destruct (nth_error _ row) as [o|] eqn:En; [|exact Hr].
    apply session_ready_update; [exact Hr|].
    destruct Hr as (_ & _ & _ & _ & Hsug).
    rewrite Forall_forall in Hsug. apply Hsug.
    eapply nth_error_In; exact En.
Qed.

(** X15.  The quantities are counts and the credit ceiling is read on the
    quotient the code computes, as in the invariants of C3.  From a
    well-formed state with the ids of a session, the customer of new orders
    and whole suggestions, in which the invariants hold, every sequence of
    events of the rendered component (the four buttons, and minus, plus,
    typed quantity and suggestion of any row), the typed quantities being
    what [parseInt] answers, leads to a state in which the invariants hold,
    the ids are unique and which is again such a state. *)
Theorem session_invariants (events : list event) (app : App) :
  session_ready (state app) ->
  forallb parsed_by_parseInt events = true ->
  invariants (state (session app events)) = true
  /\ unique_ids (state (session app events))
  /\ session_ready (state (session app events)).
Proof.
  intros Hr He.
  assert (H : session_ready (state (session app events))).
  { unfold session. revert app Hr.
    induction events as [|e es IH]; intros app Hr; simpl.
    - exact Hr.
    - simpl in He. apply andb_true_iff in He as [He Hes].
      apply (IH Hes), session_ready_handle; assumption. }
  destruct (session_ready_sound _ H) as (_ & Hu & Hi). auto.
Qed.

Lemma session_ready_initialState : session_ready (state initialApp).
Proof.
  split; [reflexivity|]. split; [reflexivity|].
  split; [apply Permutation_refl|]. split; [discriminate|].
  repeat constructor.
Defined.

Lemma session_invariants_witness :
  session_ready (state initialApp)
  /\ forallb parsed_by_parseInt
       [ClickAdd; ClickAuto; ChangeInput 1 NaN; ClickPlus 0;
        ClickSuggestion 1; ClickMinus 0; ClickSave; ClickReset] = true
  /\ invariants
       (state (session initialApp
                 [ClickAdd; ClickAuto; ChangeInput 1 NaN; ClickPlus 0;
                  ClickSuggestion 1; ClickMinus 0; ClickSave; ClickReset]))
     = true.
Proof.
  split; [exact session_ready_initialState|]. split; [reflexivity|].
  exact (proj1 (session_invariants
                  [ClickAdd; ClickAuto; ChangeInput 1 NaN; ClickPlus 0;
                   ClickSuggestion 1; ClickMinus 0; ClickSave; ClickReset]
                  initialApp session_ready_initialState eq_refl)).
Defined.

(* ================================================================== *)
(** ** The minus button *)

Section MinusButton.
Local Open Scope Q_scope.

(** With unique ids the order of a row is the one its handlers aim at. *)
Lemma row_is_target (s : AllocationState) (row : nat) (o : Order.t) :
  unique_ids s -> nth_error (orders s) row = Some o ->
  find_order s (Order.id o) = Some o.
Proof.
  unfold unique_ids, ids, find_order. intros Hu Hn.
  destruct (findIndex (fun x => String.eqb (Order.id x) (Order.id o))
              (orders s)) as [i|] eqn:Ei.
  - destruct (findIndex_Some _ _ _ Ei) as (y & Hy & Hf & Hp).
    rewrite Hf. f_equal. apply String.eqb_eq in Hp.
    rewrite (NoDup_nth_error (map Order.id (orders s))) in Hu.
    assert (Hlt : (i < List.length (map Order.id (orders s)))%nat).
    { rewrite length_map. apply nth_error_Some. congruence. }
    assert (E : i = row).
    { apply Hu; [exact Hlt|]. rewrite !nth_error_map, Hy, Hn. simpl.
      congruence. }
    subst i. congruence.
  - apply findIndex_None in Ei.
    apply nth_error_In in Hn.
    apply (find_none _ _ Ei) in Hn. rewrite String.eqb_refl in Hn.
    discriminate.
Qed.

(** One unit less than an allocation the invariants allow is within the
    bounds of a manual update. *)
Lemma one_less_within_bounds (s : AllocationState) (order : Order.t)
    (customer : Customer.t) :
  well_formed s = true -> invariants s = true -> unique_ids s ->
  find_order s (Order.id order) = Some order ->
  find_customer (customers s) (Order.customerId order) = Some customer ->
  exists a,
    Order.allocatedQty order = Fin a
    /\ forall d, d = zero \/ d = Fin (a + - 1) ->
         leb d (Order.requestedQty order) = true
         /\ leb d (maxAffordableQty customer order) = true
         /\ leb d (maxAvailableQty s (Order.id order)) = true.
Proof.
  intros Hwf Hinv Hu Ho Hc.
  destruct (find_findIndex _ _ _ Ho) as (i & Hi & Hn).
  unfold well_formed in Hwf. apply andb_true_iff in Hwf as [Hf Hd].
  apply finite_preconditions_inv in Hf as ((t & Etot & Ht) & Hcs & Hos).
  pose proof (nth_error_In _ _ Hn) as Hin.
  destruct (Hos order Hin) as [Hp Hr].
  apply finite_nonneg_Fin in Hp as (p & Ep & Hp).
  apply count_Fin in Hr as (qr & Eqr & Hqr & _).
  rewrite forallb_forall in Hd. specialize (Hd order Hin).
  unfold quotient_defined in Hd. rewrite Hc in Hd.
  assert (Hcr : finite_nonneg (Customer.creditRemaining customer) = true).
  { apply find_some in Hc as [Hc _].
    rewrite forallb_forall in Hcs. apply Hcs, Hc. }
  apply finite_nonneg_Fin in Hcr as (cr & Ecr & Hcr).
  rewrite Ep, Ecr in Hd. apply truthy_defined in Hd.
  destruct (invariants_inv _ Hinv) as (Hall & Hcounts & Hfin & Hle & _).
  pose proof (proj1 (Forall_forall _ _) Hall order Hin) as Hord.
  pose proof (proj1 (Forall_forall _ _) Hcounts order Hin) as Hca.
  apply count_Fin in Hca as (a & Ea & Ha0 & _ & Haw).
  unfold order_invariant in Hord. rewrite Hc, Ea, Eqr, Ep, Ecr in Hord.
  apply andb_true_iff in Hord as [Hord Hcred].
  apply andb_true_iff in Hord as [Hord _].
  apply andb_true_iff in Hord as [_ Hreq].
  apply JsFacts.leb_Fin in Hreq.
  destruct (allocatedTotal_finite _ Hfin) as (S & ES & HS).
  rewrite ES, Etot in Hle. apply JsFacts.leb_Fin in Hle.
  assert (Hfin' : Forall finitely_allocated
                    (otherOrders (orders s) (Order.id order))).
  { unfold otherOrders. apply Forall_forall. intros o Hoin.
    apply filter_In in Hoin as [Hoin _].
    rewrite Forall_forall in Hfin. apply Hfin, Hoin. }
  destruct (allocatedTotal_finite _ Hfin') as (O & EO & HO).
  rewrite (otherOrders_unique _ _ _ Hu Hi) in HO.
  rewrite (allocatedQ_remove_at _ _ _ Hn), Ea in HO. simpl in HO.
  exists a. split; [exact Ea|].
  assert (Haff : leb zero (maxAffordableQty customer order) = true
                 /\ leb (Fin (a + - 1)) (maxAffordableQty customer order)
                    = true).
  { unfold maxAffordableQty. rewrite Ecr, Ep.
    destruct (affordable_nonneg cr p Hcr Hp Hd) as [Haff0 _].
    split; [exact Haff0|].
    apply orb_true_iff in Hcred as [Hz|Hq].
    - apply JsFacts.eqb_Fin in Hz.
      apply JsFacts.leb_trans with zero; [|exact Haff0].
      apply JsFacts.leb_Fin. lra.
    - apply JsFacts.leb_trans with (Fin a);
        [apply JsFacts.leb_Fin; lra|].
      apply whole_leb_floor; assumption. }
  destruct Haff as [Haff0 Haff1].
  unfold maxAvailableQty.
  rewrite currentAllocatedTotal_others, EO, Etot, Eqr. cbn [sub].
  intros d [-> | ->]; repeat split; try assumption;
    apply JsFacts.leb_Fin; lra.
Qed.

(** X16.  Where the invariants hold in a well-formed state with unique ids
    (so the quantities are counts, no price is the negative zero, and the
    allocation of a row is at most the quotient credit / price the code
    computes), the minus button of a row, when it is enabled, lowers the
    allocation of that row by one, but not below zero, and leaves no
    message. *)
Theorem minus_lowers_by_one (app : App) (row : nat) (order : Order.t) :
  well_formed (state app) = true ->
  invariants (state app) = true ->
  unique_ids (state app) ->
  nth_error (orders (state app)) row = Some order ->
  minusDisabled order = false ->
  let app' := handle app (ClickMinus row) in
  (exists order',
     find_order (state app') (Order.id order) = Some order'
     /\ eqb (Order.allocatedQty order')
            (Math_max [zero; sub (Order.allocatedQty order) (Fin 1)]) = true)
  /\ errors app' = [].
Proof.
  intros Hwf Hinv Hu Hn Hdis. cbv zeta. cbn [handle]. rewrite Hn, Hdis.
  unfold onMinus.
  pose proof (row_is_target _ _ _ Hu Hn) as Ho.
  assert (Hc : exists customer,
             find_customer (customers (state app)) (Order.customerId order)
             = Some customer).
  { pose proof Hwf as H. unfold well_formed in H.
    apply andb_true_iff in H as [_ Hd].
    rewrite forallb_forall in Hd.
    specialize (Hd order (nth_error_In _ _ Hn)).
    unfold quotient_defined in Hd.
    destruct (find_customer _ _) as [c|]; [|discriminate].
    exists c. reflexivity. }
  destruct Hc as (customer & Hc).
  destruct (one_less_within_bounds _ order customer Hwf Hinv Hu Ho Hc)
    as (a & Ea & Hb).
  rewrite Ea. change (sub (Fin a) (Fin 1)) with (Fin (a + - 1)).
  set (d := Fin (a + - 1)).
  destruct (updateAllocation_target app (Order.id order) d order customer
              Ho Hc) as [Hf He].
  assert (Hm : Math_max [zero; d] = zero \/ Math_max [zero; d] = d).
  { rewrite JsFacts.Math_max_zero. simpl isNaN. cbv iota.
    destruct (gtb d zero); auto. }
  assert (HD : leb (Math_max [zero; d]) (Order.requestedQty order) = true
               /\ leb (Math_max [zero; d]) (maxAffordableQty customer order)
                  = true
               /\ leb (Math_max [zero; d])
                    (maxAvailableQty (state app) (Order.id order)) = true).
  { destruct Hm as [->| ->]; apply Hb; auto. }
  destruct HD as (H1 & H2 & H3).
  destruct (constrainedQty_honoured (state app) customer order
              (Order.id order) d eq_refl H1 H2 H3) as [E Hnil].
  split.
  - eexists. split; [exact Hf|].
    cbn [Order.with_allocation Order.allocatedQty]. exact E.
  - rewrite He. exact Hnil.
Qed.

Lemma minus_lowers_by_one_witness :
  let app := runAutoAssignment exampleApp in
  well_formed (state app) = true
  /\ invariants (state app) = true
  /\ unique_ids (state app)
  /\ (exists order,
        nth_error (orders (state app)) 1 = Some order
        /\ minusDisabled order = false
        /\ errors (handle app (ClickMinus 1)) = []).
Proof.
  cbv zeta.
  assert (Hu : unique_ids (state (runAutoAssignment exampleApp))).
  { unfold unique_ids, ids. simpl.
    repeat constructor; simpl; intuition discriminate. }
  split; [reflexivity|]. split; [reflexivity|]. split; [exact Hu|].
  eexists. split; [reflexivity|]. split; [reflexivity|].
  apply (proj2 (minus_lowers_by_one (runAutoAssignment exampleApp) 1 _
                  eq_refl eq_refl Hu eq_refl eq_refl)).
Defined.
End MinusButton.

(* ================================================================== *)
(** ** The priority order is determined *)

(** X17.  The sequence the automatic pass walks is the only arrangement of
    the stored orders that is sorted by non-increasing priority and keeps
    the orders of every one priority in their input order: the comparator
    leaves a stable sort no choice. *)
Theorem stable_sort_determined (s : AllocationState) (l' : list Order.t) :
  StronglySorted (served_before (customers s)) l' ->
  (forall k,
     with_priority (customers s) k l'
     = with_priority (customers s) k (orders s)) ->
  l' = sort (compareOrders (customers s)) (orders s).
Proof.
  intros Hs Hk.
  apply (sorted_stable_eq (customers s)); [exact Hs | apply sort_sorted|].
  intro k. rewrite sort_with_priority. apply Hk.
Qed.

Lemma exampleProcessing_sorted :
  StronglySorted (served_before (customers exampleState)) exampleProcessing.
Proof. repeat constructor. Defined.

Lemma exampleProcessing_stable (k : num) :
  with_priority (customers exampleState) k exampleProcessing
  = with_priority (customers exampleState) k (orders exampleState).
Proof.
  unfold with_priority, exampleProcessing.
  destruct k as [q| | | |]; simpl; try reflexivity.
  destruct (Qeq_bool 200 q) eqn:E2, (Qeq_bool 100 q) eqn:E1;
    try reflexivity.
  exfalso. apply Qeq_bool_iff in E1, E2. rewrite <- E1 in E2.
  discriminate E2.
Defined.

Lemma stable_sort_determined_witness :
  StronglySorted (served_before (customers exampleState)) exampleProcessing
  /\ exampleProcessing
     = sort (compareOrders (customers exampleState)) (orders exampleState).
Proof.
  split; [exact exampleProcessing_sorted|].
  exact (stable_sort_determined exampleState exampleProcessing
           exampleProcessing_sorted exampleProcessing_stable).
Defined.

(* ================================================================== *)
(** ** Enough for everyone *)

Section Ample.
Local Open Scope Q_scope.

Lemma requestedQ_Permutation (l l' : list Order.t) :
  Permutation l l' -> requestedQ l == requestedQ l'.
Proof.
  induction 1 as [|x l l' _ IH|x y l|l l' l'' _ IH1 _ IH2]; simpl.
  - reflexivity.
  - rewrite IH. reflexivity.
  - ring.
  - rewrite IH1. exact IH2.
Qed.

Lemma requestedQ_nonneg (cs : list Customer.t) (l : list Order.t) :
  Forall (auto_ready cs) l -> 0 <= requestedQ l.
Proof.
  induction 1 as [|o l (_ & Hq & _) _ IH]; simpl.
  - apply Qle_refl.
  - apply count_Fin in Hq as (qr & -> & Hqr & _). simpl. lra.
Qed.

(** With stock for the request and a customer who can pay for it, the
    quantity of the automatic pass is the request. *)
Lemma auto_quantity_full (qr rq : Q) (aff : num) :
  0 <= qr -> qr <= rq -> leb (Fin qr) aff = true ->
  exists a,
    Math_max [zero; Math_min [Fin qr; Fin rq; aff]] = Fin a /\ a == qr.
Proof.
  intros Hqr Hrq Haff.
  assert (E : eqb (Math_min [Fin qr; Fin rq; aff]) (Fin qr) = true).
  { apply Math_min_least.
    - unfold no_NaN. simpl.
      rewrite (JsFacts.leb_not_NaN_r _ _ Haff). reflexivity.
    - left. reflexivity.
    - intros y [<-|[<-|[<-|[]]]].
      + apply JsFacts.leb_Fin, Qle_refl.
      + apply JsFacts.leb_Fin, Hrq.
      + exact Haff. }
  rewrite JsFacts.Math_max_zero.
  destruct (Math_min [Fin qr; Fin rq; aff]) as [m| | | |];
    try discriminate.
  - apply JsFacts.eqb_Fin in E. simpl isNaN. cbv iota.
    destruct (gtb (Fin m) zero) eqn:G.
    + exists m. split; [reflexivity | exact E].
    + exists 0. split; [reflexivity|].
      unfold gtb, ltb, zero in G.
      destruct (Qcompare_spec 0 m); try discriminate; lra.
  - exists 0. split; [reflexivity|].
    cbn [eqb] in E. apply Qeq_bool_iff in E. exact E.
Qed.

Lemma allocate_full (cs : list Customer.t) (l : list Order.t) (rq : Q) :
  Forall (auto_ready cs) l ->
  Forall (request_affordable cs) l ->
  requestedQ l <= rq ->
  exists l' rq',
    fst (allocate cs l (Fin rq)) = (l', Fin rq')
    /\ rq' == rq - requestedQ l
    /\ Forall (fun o => eqb (Order.allocatedQty o) (Order.requestedQty o)
                        = true) l'.
Proof.
  intros Hr Ha. revert rq.
  induction Hr as [|o l Ho Hl IH]; intros rq Hrq.
  - exists [], rq. simpl. repeat split; [lra | constructor].
  - inversion Ha as [|? ? Hao Hal]; subst.
    pose proof (requestedQ_nonneg cs l Hl) as Hnn.
    destruct Ho as (Hp & Hq & Hd).
    apply count_Fin in Hq as (qr & Eqr & Hqr & _).
    unfold quotient_defined in Hd.
    destruct (find_customer cs (Order.customerId o)) as [c|] eqn:Ec;
      [|discriminate].
    specialize (Hao c Ec). rewrite Eqr in Hao.
    simpl in Hrq. rewrite Eqr in Hrq. simpl in Hrq.
    destruct (auto_quantity_full qr rq _ Hqr ltac:(lra) Hao) as (a & Ea & Haq).
    destruct (IH Hal (rq - a)) as (l' & rq' & E' & Hrq' & Hall);
      [lra|].
    pose proof (allocateOrder_found cs o (Fin rq) c Ec) as E.
    cbv zeta in E. rewrite Eqr, Ea in E.
    exists (Order.with_allocation o (Fin a) (mul (Fin a) (Order.pricePerUnit o))
              :: l'), rq'.
    cbn [allocate].
    destruct (allocateOrder cs o (Fin rq)) as [[o1 r1] e1].
    simpl in E. injection E as -> ->.
    destruct (allocate cs l (Fin (rq - a))) as [[l1 r2] e2].
    simpl in E'. injection E' as -> ->.
    simpl. rewrite Eqr. simpl. repeat split.
    + lra.
    + constructor; [|exact Hall].
      cbn [Order.with_allocation Order.allocatedQty Order.requestedQty].
      rewrite Eqr. apply JsFacts.eqb_Fin, Haq.
Qed.

(** X18.  When there is enough for everyone, everyone is served in full: in
    a well-formed state (the stock and the requests are counts, so that the
    running stock is computed exactly) whose requests add up to at most
    [totalStock] and in which every customer can pay for each of its
    orders, [runAutoAssignment] gives every order its [requestedQty] and
    leaves the stock less the requests. *)
Theorem runAutoAssignment_serves_all (app : App) :
  well_formed (state app) = true ->
  Forall (request_affordable (customers (state app))) (orders (state app)) ->
  leb (Fin (requestedQ (orders (state app)))) (totalStock (state app)) = true ->
  Forall (fun o => eqb (Order.allocatedQty o) (Order.requestedQty o) = true)
    (orders (state (runAutoAssignment app)))
  /\ eqb (remainingStock (state (runAutoAssignment app)))
         (sub (totalStock (state app))
              (Fin (requestedQ (orders (state app))))) = true.
Proof.
  intros Hwf Ha Hle.
  unfold well_formed in Hwf. apply andb_true_iff in Hwf as [Hf Hd].
  apply finite_preconditions_inv in Hf as ((t & Et & Ht) & Hcs & Hos).
  rewrite Et in *. apply JsFacts.leb_Fin in Hle.
  set (cs := customers (state app)) in *.
  set (l := sort (compareOrders cs) (orders (state app))).
  assert (Hp : Permutation (orders (state app)) l)
    by apply sort_Permutation.
  assert (Hready : Forall (auto_ready cs) l).
  { apply Forall_forall. intros o Ho.
    apply (Permutation_in _ (Permutation_sym Hp)) in Ho.
    destruct (Hos o Ho) as [H1 H2]. rewrite forallb_forall in Hd.
    repeat split; auto. }
  assert (Haff : Forall (request_affordable cs) l).
  { apply Forall_forall. intros o Ho.
    apply (Permutation_in _ (Permutation_sym Hp)) in Ho.
    rewrite Forall_forall in Ha. apply Ha, Ho. }
  pose proof (requestedQ_Permutation _ _ Hp) as Hsum.
  destruct (allocate_full cs l t Hready Haff) as (l' & rq' & E & Hrq' & Hall).
  { rewrite <- Hsum. exact Hle. }
  rewrite runAutoAssignment_unfold. cbv zeta.
  cbn [state orders remainingStock]. fold cs l. rewrite Et.
  destruct (allocate cs l (Fin t)) as [[l1 r1] e1].
  simpl in E. injection E as -> ->. simpl.
  split; [exact Hall|].
  apply JsFacts.eqb_Fin. rewrite Hrq', <- Hsum. ring.
Qed.

Lemma ampleState_affordable :
  Forall (request_affordable (customers (state ampleApp)))
    (orders (state ampleApp)).
Proof.
  apply Forall_forall. intros o Ho c Hc.
  destruct Ho as [<-|[<-|[<-|[]]]]; injection Hc as <-; reflexivity.
Defined.

Lemma runAutoAssignment_serves_all_witness :
  well_formed (state ampleApp) = true
  /\ leb (Fin (requestedQ (orders (state ampleApp))))
         (totalStock (state ampleApp)) = true
  /\ Forall (fun o => eqb (Order.allocatedQty o) (Order.requestedQty o) = true)
       (orders (state (runAutoAssignment ampleApp))).
Proof.
  split; [reflexivity|]. split; [reflexivity|].
  exact (proj1 (runAutoAssignment_serves_all ampleApp eq_refl
                  ampleState_affordable eq_refl)).
Defined.
End Ample.
